(** * maflib.sort_order: sort orders, sort keys and the sort-order checker

    A shallow embedding of [src/maflib/sort_order.py] and the properties of
    its orderings, key comparison, registry lookup, checker and enforcing
    iterator.

    Conventions of the embedding.
    - A Python call that may raise returns a [result]; code that mutates
      [self] runs in the state-and-exception monad [Py], in which the state
      written before a [raise] survives the exception, as attributes of a
      Python object do.
    - Comparison of values follows Python 3: [None], [int] and [str] values
      of different types are not orderable ([TypeError]); strings compare
      lexicographically by character code.
    - A record is an object of some class.  It exposes [chromosome] (a
      string, an integer rank or null), [start] and [end] when its class
      derives from [Locatable], a by-name accessor [value], its [str()] form
      and its truth value [bool()] (which a class defining [__len__] or
      [__bool__] may make false). *)

From Stdlib Require Import ZArith String Ascii List Bool Lia.
From stdpp Require Import base option list strings pretty gmap.

Local Open Scope string_scope.
Local Open Scope list_scope.
Local Open Scope Z_scope.

(** ** Exceptions and results *)

Inductive exn : Type :=
| ValueError (msg : string)
| NotImplementedError (msg : string)
| TypeError
| AttributeError
| IOError
| StopIteration.

Inductive result (A : Type) : Type :=
| Ok (a : A)
| Raise (e : exn).
Arguments Ok {A} a.
Arguments Raise {A} e.

Definition rbind {A B} (m : result A) (k : A -> result B) : result B :=
  match m with
  | Ok a => k a
  | Raise e => Raise e
  end.

Definition rmap {A B} (f : A -> B) (m : result A) : result B :=
  rbind m (fun a => Ok (f a)).

Notation "'let?' x ':=' m 'in' k" := (rbind m (fun x => k))
  (at level 10, x name, m at level 100, k at level 200).

(** State-and-exception monad: a method body acting on [self : St]. *)
Definition Py (St A : Type) : Type := St -> result A * St.

Definition ret {St A} (a : A) : Py St A := fun self => (Ok a, self).
Definition raise {St A} (e : exn) : Py St A := fun self => (Raise e, self).
Definition get {St} : Py St St := fun self => (Ok self, self).
Definition put {St} (s : St) : Py St unit := fun _ => (Ok tt, s).
Definition call {St A} (r : result A) : Py St A := fun self => (r, self).
Definition bind {St A B} (m : Py St A) (k : A -> Py St B) : Py St B :=
  fun self =>
    match m self with
    | (Ok a, self') => k a self'
    | (Raise e, self') => (Raise e, self')
    end.

Notation "'do' x <- m ;; k" := (bind m (fun x => k))
  (at level 10, x name, m at level 99, k at level 200).

(** ** Strings *)

Definition LF : string := String "010"%char EmptyString.
Definition CR : string := String "013"%char EmptyString.
Definition TAB : string := String "009"%char EmptyString.

(** [sep.join(l)] *)
Fixpoint join (sep : string) (l : list string) : string :=
  match l with
  | [] => ""
  | [s] => s
  | s :: t => s +:+ sep +:+ join sep t
  end.

(** [line.rstrip("\r\n")]: drop every trailing CR or LF. *)
Definition is_crlf (c : ascii) : bool :=
  (Ascii.eqb c "010" || Ascii.eqb c "013")%char.

Fixpoint rstrip_crlf (s : string) : string :=
  match s with
  | EmptyString => EmptyString
  | String c t =>
      match rstrip_crlf t with
      | EmptyString => if is_crlf c then EmptyString else String c EmptyString
      | t' => String c t'
      end
  end.

(** [s.split("\t")[0]]: the text before the first TAB. *)
Fixpoint first_field (s : string) : string :=
  match s with
  | EmptyString => EmptyString
  | String c t => if Ascii.eqb c "009" then EmptyString else String c (first_field t)
  end.

(** [sub in s] *)
Definition contains (s sub : string) : Prop :=
  exists pre post : string, s = pre +:+ sub +:+ post.

(** [s.startswith(p)] *)
Definition startswith (s p : string) : Prop :=
  exists post : string, s = p +:+ post.

(** ** Values held by records and keys *)

Inductive PyVal : Type :=
| PNone
| PInt (z : Z)
| PStr (s : string).

Definition of_int (o : option Z) : PyVal :=
  match o with Some z => PInt z | None => PNone end.

Definition of_str (o : option string) : PyVal :=
  match o with Some s => PStr s | None => PNone end.

(** ["%s" % v] *)
Definition format_s (v : PyVal) : string :=
  match v with
  | PNone => "None"
  | PInt z => pretty z
  | PStr s => s
  end.

(** [this < that] and [this > that] on non-null values (Python 3). *)
Definition py_lt (this that : PyVal) : result bool :=
  match this, that with
  | PInt x, PInt y => Ok (x <? y)
  | PStr x, PStr y => Ok (String.ltb x y)
  | _, _ => Raise TypeError
  end.

Definition py_gt (this that : PyVal) : result bool :=
  match this, that with
  | PInt x, PInt y => Ok (x >? y)
  | PStr x, PStr y => Ok (String.ltb y x)
  | _, _ => Raise TypeError
  end.

Definition int_of_bool (b : bool) : Z := if b then 1 else 0.

(** [str(v)] *)
Definition py_str (v : PyVal) : string :=
  match v with
  | PNone => "None"
  | PInt z => pretty z
  | PStr s => s
  end.

(** ** class SortOrderKey *)

Module SortOrderKey.

(** [SortOrderKey.compare(this, that)] *)
Definition compare (this that : PyVal) : result Z :=
  match this, that with
  | PNone, PNone => Ok 0
  | PNone, _ => Ok 1
  | _, PNone => Ok (-1)
  | _, _ =>
      let? gt := py_gt this that in
      let? lt := py_lt this that in
      Ok (int_of_bool gt - int_of_bool lt)
  end.

End SortOrderKey.

(** ** Records *)

(** Modelled from the spec: [maflib.locatable.Locatable] is not among the
    sources.  The capability exposes readable [chromosome], [start] and
    [end]; a chromosome is a contig name (a string) or a pre-mapped rank
    (an integer), start and end are integers, and any of them may be null.
    [Locatable.__init__] stores its three arguments as these attributes. *)
Record Locatable : Type := {
  chromosome : PyVal;
  start : option Z;
  end_ : option Z
}.

(** Modelled from the spec: the record class is not among the sources.  A
    record is consumed through the Locatable capability, the by-name
    accessor [value(field_name) -> value-or-null] and [str()].  Its truth
    value [bool(record)], which Python takes where the checker tests
    [self._last_rec], is one more attribute of the object; the spec is
    silent on it, and a class that defines [__len__] or [__bool__] can make
    it false.  The key functions take any object: one whose class does not
    derive from [Locatable] (a dict, say) need not have the accessor. *)
Record Rec : Type := {
  rec_class : string;                  (* record.__class__.__name__ *)
  rec_locatable : option Locatable;    (* Some: the class derives from Locatable *)
  rec_value : bool;                    (* not Locatable: has the accessor value *)
  rec_columns : gmap string string;    (* the columns read by record.value *)
  rec_str : string;                    (* str(record) *)
  rec_bool : bool                      (* bool(record) *)
}.

(** [record.value(name)]: the column's value, or [None]. *)
Definition value (record : Rec) (name : string) : option string :=
  rec_columns record !! name.

(** [hasattr(record, "value")]: a Locatable record is a record of the
    library and exposes the accessor; any other object may lack it. *)
Definition has_value (record : Rec) : bool :=
  match rec_locatable record with
  | Some _ => true
  | None => rec_value record
  end.

(** ** Sort keys *)

Record CoordinateKey : Type := {
  key_chromosome : PyVal;
  key_start : PyVal;
  key_end : PyVal
}.

Record BarcodesAndCoordinateKey : Type := {
  tumor_barcode : PyVal;
  normal_barcode : PyVal;
  coordinate : CoordinateKey           (* the attributes of the parent class *)
}.

Inductive Key : Type :=
| KCoordinate (k : CoordinateKey)
| KBarcodes (k : BarcodesAndCoordinateKey).

(** The [chromosome], [start], [end] attributes of any key object. *)
Definition locatable_of (k : Key) : CoordinateKey :=
  match k with
  | KCoordinate c => c
  | KBarcodes b => coordinate b
  end.

(** [contigs.index(chromosome)]: the first position holding an equal item;
    only a string equals a contig name. *)
Fixpoint index (x : PyVal) (l : list string) : option nat :=
  match l with
  | [] => None
  | y :: t =>
      if (match x with PStr s => String.eqb s y | _ => false end)
      then Some O
      else S <$> index x t
  end.

Module _CoordinateKey.

(** [_CoordinateKey.__init__(self, record, contigs)] *)
Definition __init__ (record : Rec) (contigs : option (list string))
  : result CoordinateKey :=
  match rec_locatable record with
  | None =>
      Raise (ValueError ("Record of type '" +:+ rec_class record
                         +:+ "' is not a subclass of 'Locatable'"))
  | Some loc =>
      let? chrom :=
        match contigs with
        | Some ((_ :: _) as contigs) =>
            match index (chromosome loc) contigs with
            | Some i => Ok (PInt (Z.of_nat i))
            | None =>
                Raise (ValueError
                         ("Could not find contig '" +:+ format_s (chromosome loc)
                          +:+ "' in list of contigs: " +:+ join ", " contigs))
            end
        | _ => Ok (chromosome loc)
        end in
      Ok {| key_chromosome := chrom;
            key_start := of_int (start loc);
            key_end := of_int (end_ loc) |}
  end.

(** [_CoordinateKey.__cmp__(self, other)] *)
Definition __cmp__ (self other : CoordinateKey) : result Z :=
  let? diff := SortOrderKey.compare (key_chromosome self) (key_chromosome other) in
  let? diff :=
    if diff =? 0
    then SortOrderKey.compare (key_start self) (key_start other)
    else Ok diff in
  let? diff :=
    if diff =? 0
    then SortOrderKey.compare (key_end self) (key_end other)
    else Ok diff in
  Ok diff.

(** [_CoordinateKey.__str__(self)] *)
Definition __str__ (self : CoordinateKey) : string :=
  join TAB (List.map py_str [key_chromosome self; key_start self; key_end self]).

End _CoordinateKey.

Module _BarcodesAndCoordinateKey.

(** [_BarcodesAndCoordinateKey.__init__(self, record, contigs)]; the two
    barcodes are read through [record.value] before the parent class looks
    at the record, so an object without the accessor raises
    [AttributeError], whatever else it is. *)
Definition __init__ (record : Rec) (contigs : option (list string))
  : result BarcodesAndCoordinateKey :=
  if has_value record then
    let tumor := value record "Tumor_Sample_Barcode" in
    let normal := value record "Matched_Norm_Sample_Barcode" in
    let? c := _CoordinateKey.__init__ record contigs in
    Ok {| tumor_barcode := of_str tumor;
          normal_barcode := of_str normal;
          coordinate := c |}
  else Raise AttributeError.

(** [_BarcodesAndCoordinateKey.__cmp__(self, other)]; a plain coordinate key
    has no barcode attributes. *)
Definition __cmp__ (self : BarcodesAndCoordinateKey) (other : Key) : result Z :=
  match other with
  | KCoordinate _ => Raise AttributeError
  | KBarcodes o =>
      let? diff := SortOrderKey.compare (tumor_barcode self) (tumor_barcode o) in
      let? diff :=
        if diff =? 0
        then SortOrderKey.compare (normal_barcode self) (normal_barcode o)
        else Ok diff in
      let? diff :=
        if diff =? 0
        then _CoordinateKey.__cmp__ (coordinate self) (coordinate o)
        else Ok diff in
      Ok diff
  end.

(** [_BarcodesAndCoordinateKey.__str__(self)]; [str.join] takes strings
    only. *)
Definition __str__ (self : BarcodesAndCoordinateKey) : result string :=
  let coordinates := _CoordinateKey.__str__ (coordinate self) in
  match tumor_barcode self, normal_barcode self with
  | PStr tumor, PStr normal => Ok (join TAB [tumor; normal; coordinates])
  | _, _ => Raise TypeError
  end.

End _BarcodesAndCoordinateKey.

(** [self.__cmp__(other)], dispatched on the class of [self]. *)
Definition __cmp__ (self other : Key) : result Z :=
  match self with
  | KCoordinate c => _CoordinateKey.__cmp__ c (locatable_of other)
  | KBarcodes b => _BarcodesAndCoordinateKey.__cmp__ b other
  end.

(** [SortOrderKey.__lt__] and [SortOrderKey.__eq__] *)
Definition __lt__ (self other : Key) : result bool :=
  let? c := __cmp__ self other in Ok (c <? 0).

Definition __eq__ (self other : Key) : result bool :=
  let? c := __cmp__ self other in Ok (c =? 0).

(** ** class SortOrder and its sub-classes *)

Inductive SortOrderClass : Type :=
| Unknown
| Unsorted
| BarcodesAndCoordinate
| Coordinate.

(** [cls.name()] *)
Definition name (cls : SortOrderClass) : string :=
  match cls with
  | Unknown => "Unknown"
  | Unsorted => "Unsorted"
  | BarcodesAndCoordinate => "BarcodesAndCoordinate"
  | Coordinate => "Coordinate"
  end.

(** [SortOrder.all()] *)
Definition all : list SortOrderClass :=
  [Unknown; Unsorted; BarcodesAndCoordinate; Coordinate].

(** [SortOrder.find(sort_order_name)] *)
Definition find (sort_order_name : string) : result SortOrderClass :=
  match List.filter (fun so => String.eqb (name so) sort_order_name) all with
  | sort_order :: _ => Ok sort_order
  | [] =>
      let sort_orders := join ", " (List.map name all) in
      Raise (ValueError ("Could not find sort order '" +:+ sort_order_name
                         +:+ "', options: " +:+ sort_orders))
  end.

(** An instance of a sort order: its class and, for the coordinate
    orderings, the [_contigs] attribute. *)
Record SortOrder : Type := {
  class_of : SortOrderClass;
  _contigs : option (list string)
}.

Section Construction.

(** The files that [open(path, "r")] can read, as their lines. *)
Variable fs : string -> option (list string).

(** The body of [Coordinate.__init__(self, fasta_index, contigs)]: the
    value left in [self._contigs]. *)
Definition Coordinate_contigs (fasta_index : option string)
    (contigs : option (list string)) : result (option (list string)) :=
  match fasta_index with
  | Some ((String _ _) as path) =>
      match fs path with
      | Some handle =>
          Ok (Some (List.map (fun line => first_field (rstrip_crlf line)) handle))
      | None => Raise IOError
      end
  | _ =>
      match contigs with
      | Some ((_ :: _) as contigs) => Ok (Some contigs)
      | _ => Ok None
      end
  end.

(** [cls(fasta_index, contigs)] *)
Definition new (cls : SortOrderClass) (fasta_index : option string)
    (contigs : option (list string)) : result SortOrder :=
  match cls with
  | Unknown | Unsorted => Ok {| class_of := cls; _contigs := None |}
  | Coordinate | BarcodesAndCoordinate =>
      let? c := Coordinate_contigs fasta_index contigs in
      Ok {| class_of := cls; _contigs := c |}
  end.

End Construction.

(** [self.sort_key()] *)
Definition sort_key (self : SortOrder) : result (Rec -> result Key) :=
  match class_of self with
  | Unknown =>
      Raise (NotImplementedError "Sorting not supported for Unknown order.")
  | Unsorted =>
      Raise (NotImplementedError "Sorting not supported for Unsorted order.")
  | Coordinate =>
      Ok (fun record =>
            rmap KCoordinate (_CoordinateKey.__init__ record (_contigs self)))
  | BarcodesAndCoordinate =>
      Ok (fun record =>
            rmap KBarcodes (_BarcodesAndCoordinateKey.__init__ record (_contigs self)))
  end.

(** ** class SortOrderChecker *)

Record SortOrderChecker : Type := {
  _last_rec : option Rec;
  _sort_f : option (Rec -> result Key)
}.

Module Checker.

(** [SortOrderChecker.__init__(self, sort_order)] *)
Definition __init__ (sort_order : SortOrder) : result SortOrderChecker :=
  match sort_key sort_order with
  | Ok f => Ok {| _last_rec := None; _sort_f := Some f |}
  | Raise (NotImplementedError _) => Ok {| _last_rec := None; _sort_f := None |}
  | Raise e => Raise e
  end.

Definition out_of_order (last rec : Rec) : exn :=
  ValueError ("Records out of order" +:+ LF +:+ rec_str last +:+ LF +:+ rec_str rec).

(** [SortOrderChecker.__iadd__(self, rec)] *)
Definition __iadd__ (rec : Rec) : Py SortOrderChecker unit :=
  do self <- get ;;
  do _ <-
     match _last_rec self, _sort_f self with
     | Some last, Some sort_f =>
         if rec_bool last then
           do rec_key <- call (sort_f rec) ;;
           do last_rec_key <- call (sort_f last) ;;
           do lt <- call (__lt__ rec_key last_rec_key) ;;
           (if lt : bool then raise (out_of_order last rec) else ret tt)
         else ret tt
     | _, _ => ret tt
     end ;;
  do self <- get ;;
  put {| _last_rec := Some rec; _sort_f := _sort_f self |}.

(** [SortOrderChecker.add(self, rec)] *)
Definition add (rec : Rec) : Py SortOrderChecker unit := __iadd__ rec.

(** Feeding a list of records, stopping at the first exception. *)
Fixpoint add_all (recs : list Rec) : Py SortOrderChecker unit :=
  match recs with
  | [] => ret tt
  | rec :: rest => do _ <- add rec ;; add_all rest
  end.

End Checker.

(** ** class SortOrderEnforcingIterator *)

(** The wrapped iterator is held as the records it has yet to produce. *)
Record SortOrderEnforcingIterator : Type := {
  _checker : SortOrderChecker;
  _iter : list Rec
}.

Module Enforcing.

(** [SortOrderEnforcingIterator.__init__(self, _iter, sort_order)] *)
Definition __init__ (iter : list Rec) (sort_order : SortOrder)
  : result SortOrderEnforcingIterator :=
  let? c := Checker.__init__ sort_order in
  Ok {| _checker := c; _iter := iter |}.

(** [next(self._iter)] *)
Definition next_iter : Py SortOrderEnforcingIterator Rec :=
  fun self =>
    match _iter self with
    | [] => (Raise StopIteration, self)
    | rec :: rest => (Ok rec, {| _checker := _checker self; _iter := rest |})
    end.

(** A method call on [self._checker]. *)
Definition on_checker {A} (m : Py SortOrderChecker A)
  : Py SortOrderEnforcingIterator A :=
  fun self =>
    let (r, c) := m (_checker self) in
    (r, {| _checker := c; _iter := _iter self |}).

(** [SortOrderEnforcingIterator.__next__(self)] *)
Definition __next__ : Py SortOrderEnforcingIterator Rec :=
  do rec <- next_iter ;;
  do _ <- on_checker (Checker.add rec) ;;
  ret rec.

(** What a consumer pulling from the iterator observes. *)
Inductive outcome : Type :=
| Exhausted                (* StopIteration: the loop ends normally *)
| Failed (e : exn).        (* any other exception reaches the consumer *)

(** [for rec in iterator: yield rec], for at most [fuel] calls of
    [__next__]: the records obtained and how the loop ended. *)
Fixpoint consume (fuel : nat) (self : SortOrderEnforcingIterator)
  : option (list Rec * outcome) :=
  match fuel with
  | O => None
  | S fuel =>
      match __next__ self with
      | (Ok rec, self') =>
          match consume fuel self' with
          | Some (recs, o) => Some (rec :: recs, o)
          | None => None
          end
      | (Raise StopIteration, _) => Some ([], Exhausted)
      | (Raise e, _) => Some ([], Failed e)
      end
  end.

End Enforcing.

(** ** Vocabulary of the statements *)

(** A three-way result as an integer. *)
Definition sign (c : comparison) : Z :=
  match c with Lt => -1 | Eq => 0 | Gt => 1 end.

(** The fields of a key in their order of precedence. *)
Definition fields (k : Key) : list PyVal :=
  match k with
  | KCoordinate c => [key_chromosome c; key_start c; key_end c]
  | KBarcodes b =>
      [tumor_barcode b; normal_barcode b;
       key_chromosome (coordinate b); key_start (coordinate b);
       key_end (coordinate b)]
  end.

Definition same_class (k1 k2 : Key) : bool :=
  match k1, k2 with
  | KCoordinate _, KCoordinate _ | KBarcodes _, KBarcodes _ => true
  | _, _ => false
  end.

(** Lexicographic composition: the first non-zero field result decides. *)
Fixpoint compare_fields (xs ys : list PyVal) : result Z :=
  match xs, ys with
  | x :: xs', y :: ys' =>
      let? d := SortOrderKey.compare x y in
      if d =? 0 then compare_fields xs' ys' else Ok d
  | _, _ => Ok 0
  end.

(** The two [ValueError]s of the checker and of key derivation, told apart
    by their message. *)
Definition OrderViolation (e : exn) : Prop :=
  exists msg, e = ValueError msg /\ startswith msg "Records out of order".

Definition UnknownContig (e : exn) : Prop :=
  exists msg, e = ValueError msg /\ startswith msg "Could not find contig".

(** The key function of [cls] asks [record] for an accessor it lacks. *)
Definition no_accessor (cls : SortOrderClass) (record : Rec) : bool :=
  match cls with
  | BarcodesAndCoordinate => negb (has_value record)
  | _ => false
  end.

(** [key(r) < key(p)]: both keys are derived and the comparison says so. *)
Definition key_lt (key : Rec -> result Key) (r p : Rec) : bool :=
  match key r, key p with
  | Ok kr, Ok kp =>
      match __lt__ kr kp with Ok b => b | Raise _ => false end
  | _, _ => false
  end.

(** [not (key(r) < key(p))], both keys being derived. *)
Definition key_ge (key : Rec -> result Key) (r p : Rec) : bool :=
  match key r, key p with
  | Ok kr, Ok kp =>
      match __lt__ kr kp with Ok b => negb b | Raise _ => false end
  | _, _ => false
  end.

(** A sequence in the order of [key]: no record's key is less than the key
    of the record before it. *)
Fixpoint in_order_from (key : Rec -> result Key) (p : Rec) (recs : list Rec)
  : bool :=
  match recs with
  | [] => true
  | r :: rest => key_ge key r p && in_order_from key r rest
  end.

Definition in_order (key : Rec -> result Key) (recs : list Rec) : bool :=
  match recs with
  | [] => true
  | r :: rest => in_order_from key r rest
  end.

(** [recs] continue in order after the record the checker holds. *)
Definition follows (key : Rec -> result Key) (c : SortOrderChecker)
    (recs : list Rec) : bool :=
  match _last_rec c with
  | Some p => in_order_from key p recs
  | None => in_order key recs
  end.

(** The checker after it accepted [rec]. *)
Definition accepted (rec : Rec) (c : SortOrderChecker) : SortOrderChecker :=
  {| _last_rec := Some rec; _sort_f := _sort_f c |}.

(** In the order declared by [sort_order]; an ordering without a key
    function declares none. *)
Definition in_declared_order (sort_order : SortOrder) (recs : list Rec) : bool :=
  match sort_key sort_order with
  | Ok key => in_order key recs
  | Raise _ => true
  end.

(** ** Sample records *)

Module Sample.

Definition record (chrom : string) (s e : Z) (tumor normal : string) : Rec :=
  {| rec_class := "MafRecord";
     rec_locatable :=
       Some {| chromosome := PStr chrom; start := Some s; end_ := Some e |};
     rec_value := true;
     rec_columns :=
       <["Tumor_Sample_Barcode" := tumor]>
         (<["Matched_Norm_Sample_Barcode" := normal]> ∅);
     rec_str := tumor +:+ TAB +:+ normal +:+ TAB +:+ chrom;
     rec_bool := true |}.

Definition chr1_late : Rec := record "chr1" 900 950 "T2" "N2".
Definition chr2_early : Rec := record "chr2" 5 6 "T1" "N1".
Definition chrX : Rec := record "chrX" 1 2 "T1" "N1".
Definition chr3_mid : Rec := record "chr3" 50 60 "T1" "N1".

(** A record without columns: every field is null and its length is 0, so
    that it is falsy. *)
Definition empty : Rec :=
  {| rec_class := "MafRecord";
     rec_locatable :=
       Some {| chromosome := PNone; start := None; end_ := None |};
     rec_value := true;
     rec_columns := ∅;
     rec_str := "";
     rec_bool := false |}.

Definition contigs : list string := ["chr1"; "chr2"; "chr3"].

Definition coordinate : SortOrder :=
  {| class_of := Coordinate; _contigs := Some contigs |}.
Definition barcodes : SortOrder :=
  {| class_of := BarcodesAndCoordinate; _contigs := Some contigs |}.
Definition unsorted : SortOrder :=
  {| class_of := Unsorted; _contigs := None |}.
Definition natural : SortOrder :=
  {| class_of := Coordinate; _contigs := None |}.

Definition no_files : string -> option (list string) := fun _ => None.

End Sample.

(** * Properties *)

(** ** The definitions on sample inputs *)

Example find_coordinate : find "Coordinate" = Ok Coordinate.
Proof. reflexivity. Qed.

Example find_lower_case :
  find "coordinate"
  = Raise (ValueError
             "Could not find sort order 'coordinate', options: Unknown, Unsorted, BarcodesAndCoordinate, Coordinate").
Proof. reflexivity. Qed.

Example contigs_of_fasta_index :
  Coordinate_contigs
    (fun _ => Some ["chr1" +:+ TAB +:+ "248956422" +:+ LF;
                    "chr2" +:+ TAB +:+ "242193529" +:+ CR +:+ LF])
    (Some "genome.fa.fai") None
  = Ok (Some ["chr1"; "chr2"]).
Proof. reflexivity. Qed.

Example compare_mixed : SortOrderKey.compare (PStr "chr1") (PInt 1) = Raise TypeError.
Proof. reflexivity. Qed.

Example key_of_chr2_early :
  _CoordinateKey.__init__ Sample.chr2_early (Some Sample.contigs)
  = Ok {| key_chromosome := PInt 1; key_start := PInt 5; key_end := PInt 6 |}.
Proof. reflexivity. Qed.

Example checker_rejects_third :
  fst (Checker.add_all
         [Sample.chr1_late; Sample.chr2_early; Sample.chr1_late]
         {| _last_rec := None;
            _sort_f := Some (fun record =>
              rmap KCoordinate
                   (_CoordinateKey.__init__ record (Some Sample.contigs))) |})
  = Raise (Checker.out_of_order Sample.chr2_early Sample.chr1_late).
Proof. reflexivity. Qed.

(** ** Strings *)

Lemma append_nil_l (b : string) : "" +:+ b = b.
Proof. reflexivity. Qed.

Lemma append_cons (x : ascii) (a b : string) :
  String x a +:+ b = String x (a +:+ b).
Proof. reflexivity. Qed.

Lemma append_assoc (a b c : string) : (a +:+ b) +:+ c = a +:+ (b +:+ c).
Proof.
  induction a as [|x a IH]; rewrite ?append_nil_l, ?append_cons; congruence.
Qed.

Lemma append_empty_r (a : string) : a +:+ "" = a.
Proof.
  induction a as [|x a IH]; rewrite ?append_nil_l, ?append_cons; congruence.
Qed.

Lemma contains_refl (s : string) : contains s s.
Proof. exists "", "". now rewrite append_nil_l, append_empty_r. Qed.

Lemma contains_app_r (a b sub : string) : contains b sub -> contains (a +:+ b) sub.
Proof.
  intros (pre & post & ->). exists (a +:+ pre), post.
  now rewrite append_assoc.
Qed.

Lemma contains_app_l (a b sub : string) : contains a sub -> contains (a +:+ b) sub.
Proof.
  intros (pre & post & ->). exists pre, (post +:+ b).
  now rewrite !append_assoc.
Qed.

Lemma contains_join (sep : string) (l : list string) (s : string) :
  In s l -> contains (join sep l) s.
Proof.
  induction l as [|x l IH]; intros Hin; [destruct Hin|].
  destruct Hin as [->|Hin].
  - destruct l; simpl; [apply contains_refl | apply contains_app_l, contains_refl].
  - destruct l as [|y l]; [destruct Hin|].
    change (join sep (x :: y :: l)) with (x +:+ sep +:+ join sep (y :: l)).
    now apply contains_app_r, contains_app_r, IH.
Qed.

(** ** The three-way comparison of values *)

Lemma string_compare_refl (s : string) : String.compare s s = Eq.
Proof.
  pose proof (String.compare_antisym s s) as H.
  destruct (String.compare s s); simpl in H; congruence.
Qed.

Lemma compare_str (x y : string) :
  SortOrderKey.compare (PStr x) (PStr y) = Ok (sign (String.compare x y)).
Proof.
  unfold SortOrderKey.compare, py_gt, py_lt, rbind, String.ltb.
  rewrite (String.compare_antisym y x).
  now destruct (String.compare x y).
Qed.

Lemma compare_int (x y : Z) :
  SortOrderKey.compare (PInt x) (PInt y) = Ok (sign (Z.compare x y)).
Proof.
  unfold SortOrderKey.compare, py_gt, py_lt, rbind, Z.gtb, Z.ltb.
  now destruct (Z.compare x y).
Qed.

Lemma sign_three_way (c : comparison) : sign c = -1 \/ sign c = 0 \/ sign c = 1.
Proof. destruct c; simpl; auto. Qed.

Lemma compare_three_way (this that : PyVal) (d : Z) :
  SortOrderKey.compare this that = Ok d -> d = -1 \/ d = 0 \/ d = 1.
Proof.
  destruct this as [|x|x], that as [|y|y];
    rewrite ?compare_str, ?compare_int; simpl; intros H;
    try discriminate; injection H as <-; auto using sign_three_way.
Qed.

Lemma compare_of_str (a b : option string) :
  exists d, SortOrderKey.compare (of_str a) (of_str b) = Ok d /\ (d = 0 <-> a = b).
Proof.
  destruct a as [x|], b as [y|]; cbn [of_str].
  - rewrite compare_str. eexists; split; [reflexivity|].
    split.
    + destruct (String.compare x y) eqn:E; simpl; try discriminate.
      intros _. now rewrite (String.compare_eq_iff _ _ E).
    + intros [= ->]. now rewrite string_compare_refl.
  - exists (-1). split; [reflexivity|]. split; discriminate.
  - exists 1. split; [reflexivity|]. split; discriminate.
  - exists 0. split; [reflexivity|]. split; reflexivity.
Qed.

Lemma compare_of_int (a b : option Z) :
  exists d, SortOrderKey.compare (of_int a) (of_int b) = Ok d /\ (d = 0 <-> a = b).
Proof.
  destruct a as [x|], b as [y|]; cbn [of_int].
  - rewrite compare_int. eexists; split; [reflexivity|].
    split.
    + destruct (Z.compare x y) eqn:E; simpl; try discriminate.
      intros _. now rewrite (Z.compare_eq _ _ E).
    + intros [= ->]. now rewrite Z.compare_refl.
  - exists (-1). split; [reflexivity|]. split; discriminate.
  - exists 1. split; [reflexivity|]. split; discriminate.
  - exists 0. split; [reflexivity|]. split; reflexivity.
Qed.

Lemma compare_rank (i j : nat) :
  SortOrderKey.compare (PInt (Z.of_nat i)) (PInt (Z.of_nat j))
  = Ok (sign (Nat.compare i j)).
Proof. rewrite compare_int. now rewrite Nat2Z.inj_compare. Qed.

Lemma compare_refl (v : PyVal) : SortOrderKey.compare v v = Ok 0.
Proof.
  destruct v as [|x|x]; [reflexivity| |].
  - now rewrite compare_int, Z.compare_refl.
  - now rewrite compare_str, string_compare_refl.
Qed.

Lemma compare_null_r (v : PyVal) :
  v <> PNone -> SortOrderKey.compare v PNone = Ok (-1).
Proof. now destruct v. Qed.

Lemma compare_null_l (v : PyVal) :
  v <> PNone -> SortOrderKey.compare PNone v = Ok 1.
Proof. now destruct v. Qed.

(** ** Key comparison is the lexicographic composition of its fields *)

Lemma rbind_ret {A} (m : result A) : (let? x := m in Ok x) = m.
Proof. now destruct m. Qed.

Ltac case_compare :=
  unfold rbind;
  repeat match goal with
    | |- context [match SortOrderKey.compare ?a ?b with _ => _ end] =>
        destruct (SortOrderKey.compare a b); try reflexivity
    | |- context [?d =? 0] =>
        destruct (Z.eqb_spec d 0); try congruence
    end.

Lemma coordinate_cmp_fields (c1 c2 : CoordinateKey) :
  _CoordinateKey.__cmp__ c1 c2
  = compare_fields (fields (KCoordinate c1)) (fields (KCoordinate c2)).
Proof.
  unfold _CoordinateKey.__cmp__; cbn [fields compare_fields]. case_compare.
Qed.

Lemma cmp_fields (k1 k2 : Key) :
  same_class k1 k2 = true ->
  __cmp__ k1 k2 = compare_fields (fields k1) (fields k2).
Proof.
  destruct k1 as [c1|b1], k2 as [c2|b2]; try discriminate; intros _.
  - apply coordinate_cmp_fields.
  - unfold __cmp__, _BarcodesAndCoordinateKey.__cmp__, _CoordinateKey.__cmp__.
    cbn [fields compare_fields]. case_compare.
Qed.

Lemma compare_fields_three_way (xs ys : list PyVal) (d : Z) :
  compare_fields xs ys = Ok d -> d = -1 \/ d = 0 \/ d = 1.
Proof.
  revert ys; induction xs as [|x xs IH]; intros [|y ys]; cbn [compare_fields];
    try (intros [= <-]; auto).
  destruct (SortOrderKey.compare x y) as [c|] eqn:E; cbn [rbind]; [|discriminate].
  destruct (c =? 0); [apply IH|].
  intros [= <-]. eapply compare_three_way, E.
Qed.

(** Fields that agree up to position [i], a null at [i] on one side only. *)
Lemma compare_fields_null (xs ys : list PyVal) (i : nat) (v : PyVal) :
  take i xs = take i ys ->
  xs !! i = Some v -> ys !! i = Some PNone -> v <> PNone ->
  compare_fields xs ys = Ok (-1) /\ compare_fields ys xs = Ok 1.
Proof.
  revert xs ys; induction i as [|i IH]; intros [|x xs] [|y ys] Ht Hx Hy Hv;
    try discriminate.
  - injection Hx as ->. injection Hy as ->. cbn [compare_fields].
    rewrite compare_null_r, compare_null_l by assumption. now split.
  - cbn [take] in Ht. injection Ht as -> Ht.
    cbn [compare_fields]. rewrite compare_refl. cbn [rbind].
    change (0 =? 0) with true. cbv iota. now apply IH.
Qed.

(** ** Resolving a chromosome against the contig list *)

Lemma index_not_str (x : PyVal) (l : list string) :
  (forall s, x <> PStr s) -> index x l = None.
Proof.
  intros Hx. induction l as [|y l IH]; cbn [index]; [reflexivity|].
  rewrite IH. destruct x as [| |s]; try reflexivity. now destruct (Hx s).
Qed.

Lemma index_null (l : list string) : index PNone l = None.
Proof. now apply index_not_str. Qed.

Lemma index_None (x : PyVal) (l : list string) :
  index x l = None <-> (forall s, x = PStr s -> ~ In s l).
Proof.
  destruct x as [|z|s].
  - rewrite index_null. split; [discriminate | reflexivity].
  - rewrite index_not_str by discriminate. split; [discriminate | reflexivity].
  - induction l as [|y l IH]; cbn [index].
    + split; [intros _ s0 _ [] | reflexivity].
    + destruct (String.eqb_spec s y) as [->|Hne].
      * split; [discriminate|]. intros H. exfalso. apply (H y eq_refl). now left.
      * destruct (index (PStr s) l) as [i|] eqn:E; cbn.
        -- split; [discriminate|]. intros H. exfalso.
           assert (Hn : forall s0, PStr s = PStr s0 -> ~ In s0 l).
           { intros s0 [= <-] Hin. apply (H s eq_refl). now right. }
           apply IH in Hn. discriminate.
        -- split; [|reflexivity]. intros _ s0 [= <-] [Heq|Hin]; [congruence|].
           destruct IH as [IH _]. now apply (IH eq_refl s eq_refl).
Qed.

Lemma index_nonempty (x : PyVal) (l : list string) (i : nat) :
  index x l = Some i -> exists y t, l = y :: t.
Proof. destruct l as [|y t]; [discriminate|]. eauto. Qed.

Lemma coordinate_key_ranked (record : Rec) (loc : Locatable)
    (contigs : list string) (i : nat) :
  rec_locatable record = Some loc ->
  index (chromosome loc) contigs = Some i ->
  _CoordinateKey.__init__ record (Some contigs)
  = Ok {| key_chromosome := PInt (Z.of_nat i);
          key_start := of_int (start loc);
          key_end := of_int (end_ loc) |}.
Proof.
  intros Hloc Hi. unfold _CoordinateKey.__init__. rewrite Hloc.
  destruct (index_nonempty _ _ _ Hi) as (y & t & ->).
  now rewrite Hi.
Qed.

Lemma coordinate_key_natural (record : Rec) (loc : Locatable)
    (contigs : option (list string)) :
  rec_locatable record = Some loc ->
  contigs = None \/ contigs = Some [] ->
  _CoordinateKey.__init__ record contigs
  = Ok {| key_chromosome := chromosome loc;
          key_start := of_int (start loc);
          key_end := of_int (end_ loc) |}.
Proof.
  intros Hloc [-> | ->]; unfold _CoordinateKey.__init__; now rewrite Hloc.
Qed.

Lemma coordinate_key_unknown_contig (record : Rec) (loc : Locatable)
    (y : string) (t : list string) :
  rec_locatable record = Some loc ->
  index (chromosome loc) (y :: t) = None ->
  _CoordinateKey.__init__ record (Some (y :: t))
  = Raise (ValueError ("Could not find contig '" +:+ format_s (chromosome loc)
                       +:+ "' in list of contigs: " +:+ join ", " (y :: t))).
Proof.
  intros Hloc Hi. unfold _CoordinateKey.__init__. rewrite Hloc.
  now rewrite Hi.
Qed.

(** ** Coordinate ordering *)

(** C3: under [Coordinate] with a contig list, for two Locatable records
    whose chromosomes are in the list, the comparison of their keys returns
    a value [d] in {-1, 0, 1}; the lower rank in the list is strictly less
    whatever start and end are; with equal rank the lower start is strictly
    less; with equal rank and start the result is the comparison of the
    ends; and [d] is the first non-zero result among the chromosome rank,
    start and end comparisons, taken in that order. *)
Theorem C3_coordinate_comparison
    (contigs : list string) (r1 r2 : Rec) (l1 l2 : Locatable) (i1 i2 : nat) :
  rec_locatable r1 = Some l1 -> rec_locatable r2 = Some l2 ->
  index (chromosome l1) contigs = Some i1 ->
  index (chromosome l2) contigs = Some i2 ->
  exists key k1 k2 d,
    sort_key {| class_of := Coordinate; _contigs := Some contigs |} = Ok key /\
    key r1 = Ok k1 /\ key r2 = Ok k2 /\
    __cmp__ k1 k2 = Ok d /\ __lt__ k1 k2 = Ok (d <? 0) /\
    (d = -1 \/ d = 0 \/ d = 1) /\
    ((i1 < i2)%nat -> d = -1) /\
    ((i2 < i1)%nat -> d = 1) /\
    (i1 = i2 -> forall s1 s2, start l1 = Some s1 -> start l2 = Some s2 ->
                (s1 < s2 -> d = -1) /\ (s2 < s1 -> d = 1)) /\
    (i1 = i2 -> start l1 = start l2 ->
     SortOrderKey.compare (of_int (end_ l1)) (of_int (end_ l2)) = Ok d) /\
    compare_fields
      [PInt (Z.of_nat i1); of_int (start l1); of_int (end_ l1)]
      [PInt (Z.of_nat i2); of_int (start l2); of_int (end_ l2)] = Ok d.
Proof.
  intros H1 H2 Hi1 Hi2.
  destruct (compare_of_int (start l1) (start l2)) as (ds & Hs & Hs0).
  destruct (compare_of_int (end_ l1) (end_ l2)) as (de & He & He0).
  set (dc := sign (Nat.compare i1 i2)).
  set (d := if dc =? 0 then if ds =? 0 then de else ds else dc).
  assert (Hf : compare_fields
      [PInt (Z.of_nat i1); of_int (start l1); of_int (end_ l1)]
      [PInt (Z.of_nat i2); of_int (start l2); of_int (end_ l2)] = Ok d).
  { cbn [compare_fields]. rewrite compare_rank, Hs, He. cbn [rbind].
    subst d; fold dc. destruct (dc =? 0); [|reflexivity].
    destruct (ds =? 0); [|reflexivity].
    now destruct (Z.eqb_spec de 0) as [->|]. }
  eexists _, _, _, d. split; [reflexivity|].
  unfold rmap. cbn [_contigs].
  rewrite (coordinate_key_ranked _ _ _ _ H1 Hi1),
          (coordinate_key_ranked _ _ _ _ H2 Hi2). cbn [rbind].
  split; [reflexivity|]. split; [reflexivity|].
  assert (Hc : __cmp__
      (KCoordinate {| key_chromosome := PInt (Z.of_nat i1);
                      key_start := of_int (start l1);
                      key_end := of_int (end_ l1) |})
      (KCoordinate {| key_chromosome := PInt (Z.of_nat i2);
                      key_start := of_int (start l2);
                      key_end := of_int (end_ l2) |}) = Ok d).
  { now rewrite cmp_fields. }
  split; [exact Hc|]. split; [unfold __lt__; now rewrite Hc|].
  split; [eapply compare_fields_three_way, Hf|].
  assert (Hlt : (i1 < i2)%nat -> d = -1).
  { intros Hlt. apply Nat.compare_lt_iff in Hlt. subst d dc. now rewrite Hlt. }
  assert (Hgt : (i2 < i1)%nat -> d = 1).
  { intros Hgt. apply Nat.compare_gt_iff in Hgt. subst d dc. now rewrite Hgt. }
  assert (Heq : i1 = i2 -> d = if ds =? 0 then de else ds).
  { intros ->. subst d dc. now rewrite Nat.compare_refl. }
  repeat split; auto.
  - intros Hlts. rewrite (Heq H). rewrite H0, H3 in Hs. cbn [of_int] in Hs.
    rewrite compare_int in Hs. injection Hs as <-.
    apply Z.compare_lt_iff in Hlts. now rewrite Hlts.
  - intros Hgts. rewrite (Heq H). rewrite H0, H3 in Hs. cbn [of_int] in Hs.
    rewrite compare_int in Hs. injection Hs as <-.
    apply Z.compare_gt_iff in Hgts. now rewrite Hgts.
  - intros Hi Hst. rewrite (Heq Hi). apply Hs0 in Hst. subst ds. exact He.
Qed.

Lemma C3_coordinate_comparison_witness :
  exists key k1 k2,
    sort_key Sample.coordinate = Ok key /\
    key Sample.chr1_late = Ok k1 /\ key Sample.chr2_early = Ok k2 /\
    __cmp__ k1 k2 = Ok (-1).
Proof.
  destruct (C3_coordinate_comparison Sample.contigs
              Sample.chr1_late Sample.chr2_early _ _ 0%nat 1%nat
              eq_refl eq_refl eq_refl eq_refl)
    as (key & k1 & k2 & d & Hk & H1 & H2 & Hc & _ & _ & Hlt & _).
  exists key, k1, k2. rewrite <- (Hlt (Nat.lt_0_succ 0)) at 1. auto.
Defined.

(** ** Barcode ordering *)

Lemma barcodes_key_inv (contigs : option (list string)) (key : Rec -> result Key)
    (r : Rec) (k : Key) :
  sort_key {| class_of := BarcodesAndCoordinate; _contigs := contigs |} = Ok key ->
  key r = Ok k ->
  exists c,
    _CoordinateKey.__init__ r contigs = Ok c /\
    k = KBarcodes {| tumor_barcode := of_str (value r "Tumor_Sample_Barcode");
                     normal_barcode := of_str (value r "Matched_Norm_Sample_Barcode");
                     coordinate := c |}.
Proof.
  intros [= <-]. cbn [_contigs]. unfold rmap, _BarcodesAndCoordinateKey.__init__.
  destruct (has_value r); [|discriminate].
  destruct (_CoordinateKey.__init__ r contigs) as [c|e]; cbn [rbind]; [|discriminate].
  intros [= <-]. now exists c.
Qed.

(** C4: under [BarcodesAndCoordinate], when the tumor barcodes of two
    records differ the comparison of their keys is the comparison of the
    tumor barcodes alone (for two strings, their string comparison); with
    equal tumor barcodes and different normal barcodes it is the comparison
    of the normal barcodes; with both pairs equal it is the [Coordinate]
    comparison of the same two records. *)
Theorem C4_barcodes_comparison
    (contigs : option (list string)) (key : Rec -> result Key)
    (r1 r2 : Rec) (b1 b2 : Key) :
  sort_key {| class_of := BarcodesAndCoordinate; _contigs := contigs |} = Ok key ->
  key r1 = Ok b1 -> key r2 = Ok b2 ->
  let t1 := value r1 "Tumor_Sample_Barcode" in
  let t2 := value r2 "Tumor_Sample_Barcode" in
  let n1 := value r1 "Matched_Norm_Sample_Barcode" in
  let n2 := value r2 "Matched_Norm_Sample_Barcode" in
  (t1 <> t2 ->
   __cmp__ b1 b2 = SortOrderKey.compare (of_str t1) (of_str t2) /\
   (forall s1 s2, t1 = Some s1 -> t2 = Some s2 ->
                  __cmp__ b1 b2 = Ok (sign (String.compare s1 s2)))) /\
  (t1 = t2 -> n1 <> n2 ->
   __cmp__ b1 b2 = SortOrderKey.compare (of_str n1) (of_str n2)) /\
  (t1 = t2 -> n1 = n2 ->
   exists keyC c1 c2,
     sort_key {| class_of := Coordinate; _contigs := contigs |} = Ok keyC /\
     keyC r1 = Ok c1 /\ keyC r2 = Ok c2 /\
     __cmp__ b1 b2 = __cmp__ c1 c2).
Proof.
  intros Hk H1 H2 t1 t2 n1 n2.
  destruct (barcodes_key_inv _ _ _ _ Hk H1) as (c1 & Hc1 & ->).
  destruct (barcodes_key_inv _ _ _ _ Hk H2) as (c2 & Hc2 & ->).
  subst t1 t2 n1 n2.
  set (t1 := value r1 "Tumor_Sample_Barcode") in *.
  set (t2 := value r2 "Tumor_Sample_Barcode") in *.
  set (n1 := value r1 "Matched_Norm_Sample_Barcode") in *.
  set (n2 := value r2 "Matched_Norm_Sample_Barcode") in *.
  clearbody t1 t2 n1 n2.
  destruct (compare_of_str t1 t2) as (dt & Ht & Ht0).
  destruct (compare_of_str n1 n2) as (dn & Hn & Hn0).
  unfold __cmp__, _BarcodesAndCoordinateKey.__cmp__.
  cbn [tumor_barcode normal_barcode coordinate].
  rewrite Ht, Hn. cbn [rbind].
  split; [|split].
  - intros Hne. assert (Hd : dt <> 0) by tauto.
    apply Z.eqb_neq in Hd. do 2 (rewrite ?Hd; cbn [rbind]).
    split; [reflexivity|].
    intros s1 s2 E1 E2. rewrite E1, E2 in Ht. cbn [of_str] in Ht.
    rewrite compare_str in Ht. congruence.
  - intros Heq Hne. assert (Hd : dt = 0) by tauto. subst dt.
    assert (Hd : dn <> 0) by tauto.
    apply Z.eqb_neq in Hd. change (0 =? 0) with true. cbv iota.
    cbn [rbind]. now rewrite Hd.
  - intros Heq Heqn. assert (Hd : dt = 0) by tauto. subst dt.
    assert (Hd : dn = 0) by tauto. subst dn.
    change (0 =? 0) with true. cbv iota. cbn [rbind]. cbv iota.
    eexists _, (KCoordinate c1), (KCoordinate c2).
    split; [reflexivity|]. cbn [_contigs]. unfold rmap.
    rewrite Hc1, Hc2. cbn [rbind locatable_of].
    repeat split. apply rbind_ret.
Qed.

Lemma C4_barcodes_comparison_witness :
  exists key b1 b2,
    sort_key Sample.barcodes = Ok key /\
    key Sample.chr1_late = Ok b1 /\ key Sample.chr2_early = Ok b2 /\
    __cmp__ b1 b2 = Ok 1.
Proof.
  eexists _, _, _. split; [reflexivity|]. split; [reflexivity|].
  split; [reflexivity|].
  destruct (C4_barcodes_comparison (Some Sample.contigs) _
              Sample.chr1_late Sample.chr2_early _ _ eq_refl eq_refl eq_refl)
    as ((_ & Hs) & _).
  - discriminate.
  - exact (Hs "T2" "T1" eq_refl eq_refl).
Defined.

(** ** Null handling *)

Lemma compare_fields_prefix (n : nat) (xs ys : list PyVal) :
  take n xs = take n ys ->
  compare_fields xs ys = compare_fields (drop n xs) (drop n ys).
Proof.
  revert xs ys; induction n as [|n IH]; intros xs ys Ht; [reflexivity|].
  destruct xs as [|x xs], ys as [|y ys]; try discriminate; [reflexivity|].
  cbn [take] in Ht. injection Ht as -> Ht.
  cbn [compare_fields drop]. rewrite compare_refl. cbn [rbind].
  change (0 =? 0) with true. cbv iota. now apply IH.
Qed.

(** C5: [compare] of two nulls is 0; a non-null value against a null is -1
    and a null against a non-null value is 1; and this decides every field
    position of a key: when two keys of one class agree on the fields
    before position [i] and exactly one holds a null at [i], the key holding
    the non-null value is the lesser one, while two nulls at [i] leave the
    decision to the fields after [i]. *)
Theorem C5_null_handling (v : PyVal) (k1 k2 : Key) (i : nat) :
  SortOrderKey.compare PNone PNone = Ok 0 /\
  (v <> PNone ->
   SortOrderKey.compare v PNone = Ok (-1) /\
   SortOrderKey.compare PNone v = Ok 1) /\
  (same_class k1 k2 = true ->
   take i (fields k1) = take i (fields k2) ->
   fields k1 !! i = Some v -> fields k2 !! i = Some PNone -> v <> PNone ->
   __cmp__ k1 k2 = Ok (-1) /\ __cmp__ k2 k1 = Ok 1 /\
   __lt__ k1 k2 = Ok true /\ __lt__ k2 k1 = Ok false) /\
  (same_class k1 k2 = true ->
   take i (fields k1) = take i (fields k2) ->
   fields k1 !! i = Some PNone -> fields k2 !! i = Some PNone ->
   __cmp__ k1 k2
   = compare_fields (drop (S i) (fields k1)) (drop (S i) (fields k2))).
Proof.
  split; [reflexivity|]. split; [|split].
  - intros Hv. split; [now apply compare_null_r | now apply compare_null_l].
  - intros Hc Ht H1 H2 Hv.
    assert (Hc' : same_class k2 k1 = true) by (now destruct k1, k2).
    destruct (compare_fields_null _ _ _ _ Ht H1 H2 Hv) as [Hlt Hgt].
    unfold __lt__. rewrite (cmp_fields _ _ Hc), (cmp_fields _ _ Hc'), Hlt, Hgt.
    now repeat split.
  - intros Hc Ht H1 H2. rewrite (cmp_fields _ _ Hc).
    apply compare_fields_prefix.
    rewrite (take_S_r _ _ _ H1), (take_S_r _ _ _ H2). now rewrite Ht.
Qed.

Lemma C5_null_handling_witness :
  SortOrderKey.compare (PInt 7) PNone = Ok (-1) /\
  __cmp__
    (KCoordinate {| key_chromosome := PStr "chr1"; key_start := PInt 7;
                    key_end := PNone |})
    (KCoordinate {| key_chromosome := PStr "chr1"; key_start := PNone;
                    key_end := PInt 3 |}) = Ok (-1).
Proof.
  destruct (C5_null_handling (PInt 7)
    (KCoordinate {| key_chromosome := PStr "chr1"; key_start := PInt 7;
                    key_end := PNone |})
    (KCoordinate {| key_chromosome := PStr "chr1"; key_start := PNone;
                    key_end := PInt 3 |}) 1%nat) as (_ & Hv & Hk & _).
  split.
  - apply Hv. discriminate.
  - apply Hk; try reflexivity. discriminate.
Defined.

(** ** The registry *)

Lemma find_Ok (n : string) (W : SortOrderClass) : find n = Ok W -> name W = n.
Proof.
  unfold find, all. cbn [List.filter name].
  destruct (String.eqb_spec "Unknown" n); [now intros [= <-]|].
  destruct (String.eqb_spec "Unsorted" n); [now intros [= <-]|].
  destruct (String.eqb_spec "BarcodesAndCoordinate" n); [now intros [= <-]|].
  destruct (String.eqb_spec "Coordinate" n); [now intros [= <-]|].
  discriminate.
Qed.

Lemma find_unknown_name (n : string) :
  (forall W, name W <> n) ->
  find n = Raise (ValueError
                    ("Could not find sort order '" +:+ n +:+ "', options: "
                     +:+ "Unknown, Unsorted, BarcodesAndCoordinate, Coordinate")).
Proof.
  intros H. unfold find, all. cbn [List.filter name].
  pose proof (H Unknown) as H1. pose proof (H Unsorted) as H2.
  pose proof (H BarcodesAndCoordinate) as H3. pose proof (H Coordinate) as H4.
  cbn [name] in *.
  apply String.eqb_neq in H1, H2, H3, H4. now rewrite H1, H2, H3, H4.
Qed.

(** C7: the registry is [Unknown, Unsorted, BarcodesAndCoordinate,
    Coordinate]; [find] of the name of a registered class returns that
    class; for a name equal to no registered name [find] raises a
    [ValueError] whose message contains each of the four registered names
    (and their comma-separated list); and whenever [find] returns a class,
    that class has exactly the requested name. *)
Theorem C7_find (V : SortOrderClass) (n : string) :
  all = [Unknown; Unsorted; BarcodesAndCoordinate; Coordinate] /\
  find (name V) = Ok V /\
  ((forall W, name W <> n) ->
   exists msg,
     find n = Raise (ValueError msg) /\
     (forall W, contains msg (name W)) /\
     contains msg (join ", " (List.map name all))) /\
  (forall W, find n = Ok W -> name W = n).
Proof.
  split; [reflexivity|]. split; [now destruct V|]. split.
  - intros H. eexists. split; [apply (find_unknown_name _ H)|].
    assert (Hall : contains
      ("Could not find sort order '" +:+ n +:+ "', options: "
       +:+ "Unknown, Unsorted, BarcodesAndCoordinate, Coordinate")
      (join ", " (List.map name all))).
    { apply contains_app_r, contains_app_r, contains_app_r, contains_refl. }
    split; [|exact Hall].
    intros W. destruct Hall as (pre & post & ->).
    apply contains_app_r, contains_app_l, contains_join.
    destruct W; cbn; auto.
  - apply find_Ok.
Qed.

Lemma C7_find_witness :
  exists msg,
    find "coordinate" = Raise (ValueError msg) /\
    contains msg "Unknown, Unsorted, BarcodesAndCoordinate, Coordinate".
Proof.
  destruct (C7_find Coordinate "coordinate") as (_ & _ & H & _).
  destruct H as (msg & Hf & _ & Hc).
  - intros W. destruct W; discriminate.
  - exists msg. split; [exact Hf | exact Hc].
Defined.

(** ** Unknown contigs *)

Lemma no_accessor_locatable (cls : SortOrderClass) (record : Rec)
    (loc : Locatable) :
  rec_locatable record = Some loc -> no_accessor cls record = false.
Proof. intros H. unfold no_accessor, has_value. rewrite H. now destruct cls. Qed.

Lemma sort_key_coordinate (cls : SortOrderClass) (contigs : option (list string)) :
  cls = Coordinate \/ cls = BarcodesAndCoordinate ->
  exists key,
    sort_key {| class_of := cls; _contigs := contigs |} = Ok key /\
    forall record,
      key record =
      if no_accessor cls record then Raise AttributeError else
      let? c := _CoordinateKey.__init__ record contigs in
      Ok (match cls with
          | BarcodesAndCoordinate =>
              KBarcodes
                {| tumor_barcode := of_str (value record "Tumor_Sample_Barcode");
                   normal_barcode :=
                     of_str (value record "Matched_Norm_Sample_Barcode");
                   coordinate := c |}
          | _ => KCoordinate c
          end).
Proof.
  intros [-> | ->]; eexists; (split; [reflexivity|]); intros record;
    cbn [_contigs no_accessor]; unfold rmap, _BarcodesAndCoordinateKey.__init__;
    try destruct (has_value record); cbn [negb rbind]; try reflexivity;
    now destruct (_CoordinateKey.__init__ record contigs).
Qed.

(** C8: for a [Coordinate] or [BarcodesAndCoordinate] ordering that holds
    a non-empty contig list (given as a list or read from a FASTA index),
    deriving the key of a Locatable record whose chromosome is not in the
    list raises the unknown-contig [ValueError], and its message contains
    the chromosome (as ["%s"] prints it) and the list of contigs joined by
    [", "]. *)
Theorem C8_unknown_contig
    (fs : string -> option (list string)) (cls : SortOrderClass)
    (fasta_index : option string) (given : option (list string))
    (sort_order : SortOrder) (contigs : list string)
    (record : Rec) (loc : Locatable) :
  cls = Coordinate \/ cls = BarcodesAndCoordinate ->
  new fs cls fasta_index given = Ok sort_order ->
  _contigs sort_order = Some contigs ->
  contigs <> [] ->
  rec_locatable record = Some loc ->
  (forall s, chromosome loc = PStr s -> ~ In s contigs) ->
  exists key msg,
    sort_key sort_order = Ok key /\
    key record = Raise (ValueError msg) /\
    UnknownContig (ValueError msg) /\
    contains msg (format_s (chromosome loc)) /\
    contains msg (join ", " contigs).
Proof.
  intros Hcls Hnew Hc Hne Hloc Hnot.
  assert (Hso : sort_order = {| class_of := cls; _contigs := Some contigs |}).
  { destruct sort_order as [cls' c']. cbn [_contigs] in Hc. subst c'.
    unfold new in Hnew.
    destruct Hcls as [-> | ->];
      (destruct (Coordinate_contigs fs fasta_index given);
       cbn [rbind] in Hnew; [|discriminate]); now injection Hnew as <- _. }
  subst sort_order.
  destruct contigs as [|y t]; [congruence|].
  apply index_None in Hnot.
  destruct (sort_key_coordinate cls (Some (y :: t)) Hcls) as (key & Hk & Hkey).
  exists key. eexists. split; [exact Hk|].
  rewrite Hkey, (no_accessor_locatable _ _ _ Hloc),
          (coordinate_key_unknown_contig _ _ _ _ Hloc Hnot).
  cbn [rbind]. split; [reflexivity|]. split; [|split].
  - eexists. split; [reflexivity|].
    exists (" '" +:+ format_s (chromosome loc) +:+ "' in list of contigs: "
            +:+ join ", " (y :: t)).
    reflexivity.
  - exists "Could not find contig '", ("' in list of contigs: " +:+ join ", " (y :: t)).
    reflexivity.
  - apply contains_app_r, contains_app_r, contains_app_r, contains_refl.
Qed.

Lemma C8_unknown_contig_witness :
  exists key,
    sort_key Sample.coordinate = Ok key /\
    key Sample.chrX
    = Raise (ValueError
               "Could not find contig 'chrX' in list of contigs: chr1, chr2, chr3").
Proof.
  destruct (C8_unknown_contig Sample.no_files Coordinate None
              (Some Sample.contigs) Sample.coordinate Sample.contigs
              Sample.chrX
              {| chromosome := PStr "chrX"; start := Some 1; end_ := Some 2 |}
              (or_introl eq_refl) eq_refl eq_refl)
    as (key & msg & Hk & Hr & _).
  - discriminate.
  - reflexivity.
  - intros s [= <-] [H|[H|[H|[]]]]; discriminate.
  - exists key. split; [exact Hk|].
    injection Hk as <-. reflexivity.
Defined.

(** ** An empty contig list *)

Lemma not_locatable_not_unknown_contig (cls : string) :
  ~ UnknownContig
      (ValueError ("Record of type '" +:+ cls
                   +:+ "' is not a subclass of 'Locatable'")).
Proof.
  intros (msg & [= <-] & post & H).
  rewrite !append_cons in H. discriminate.
Qed.



(** ** The checker *)

(** [add] spelled out by cases. *)
Lemma add_cases (rec : Rec) (c : SortOrderChecker) :
  Checker.add rec c =
  match _last_rec c, _sort_f c with
  | Some last, Some sort_f =>
      if rec_bool last then
        match sort_f rec with
        | Raise e => (Raise e, c)
        | Ok rec_key =>
            match sort_f last with
            | Raise e => (Raise e, c)
            | Ok last_rec_key =>
                match __lt__ rec_key last_rec_key with
                | Raise e => (Raise e, c)
                | Ok true => (Raise (Checker.out_of_order last rec), c)
                | Ok false => (Ok tt, accepted rec c)
                end
            end
        end
      else (Ok tt, accepted rec c)
  | _, _ => (Ok tt, accepted rec c)
  end.
Proof.
  unfold Checker.add, Checker.__iadd__, bind, get, put, call, raise, ret, accepted.
  destruct c as [[last|] [sort_f|]]; cbn [_last_rec _sort_f]; try reflexivity.
  destruct (rec_bool last); [|reflexivity].
  destruct (sort_f rec) as [kr|]; [|reflexivity].
  destruct (sort_f last) as [kl|]; [|reflexivity].
  destruct (__lt__ kr kl) as [[|]|]; reflexivity.
Qed.

Lemma add_raise_keeps_state (rec : Rec) (c : SortOrderChecker) (e : exn) :
  fst (Checker.add rec c) = Raise e -> snd (Checker.add rec c) = c.
Proof.
  rewrite add_cases.
  destruct (_last_rec c) as [last|]; [|discriminate].
  destruct (_sort_f c) as [sort_f|]; [|discriminate].
  destruct (rec_bool last); [|discriminate].
  destruct (sort_f rec) as [kr|]; [|reflexivity].
  destruct (sort_f last) as [kl|]; [|reflexivity].
  destruct (__lt__ kr kl) as [[|]|]; [reflexivity|discriminate|reflexivity].
Qed.

Lemma add_ok_accepts (rec : Rec) (c c' : SortOrderChecker) :
  Checker.add rec c = (Ok tt, c') -> c' = accepted rec c.
Proof.
  rewrite add_cases.
  destruct (_last_rec c) as [last|]; [|now intros [= <-]].
  destruct (_sort_f c) as [sort_f|]; [|now intros [= <-]].
  destruct (rec_bool last); [|now intros [= <-]].
  destruct (sort_f rec) as [kr|]; [|discriminate].
  destruct (sort_f last) as [kl|]; [|discriminate].
  destruct (__lt__ kr kl) as [[|]|]; [discriminate|now intros [= <-]|discriminate].
Qed.

Lemma add_all_sort_f (recs : list Rec) (c c' : SortOrderChecker) :
  Checker.add_all recs c = (Ok tt, c') -> _sort_f c' = _sort_f c.
Proof.
  revert c; induction recs as [|rec recs IH]; intros c; cbn [Checker.add_all].
  - now intros [= <-].
  - unfold bind. destruct (Checker.add rec c) as [[[]|e] c1] eqn:E; [|discriminate].
    intros H. apply IH in H. apply add_ok_accepts in E. now subst c1.
Qed.

(** C9: when [add] raises an order violation the checker is left as it was:
    the stored previous record is unchanged, and any later [add] behaves as
    if the rejected record had never been offered. *)
Theorem C9_violation_keeps_state (c : SortOrderChecker) (r : Rec) (e : exn) :
  fst (Checker.add r c) = Raise e -> OrderViolation e ->
  snd (Checker.add r c) = c /\
  _last_rec (snd (Checker.add r c)) = _last_rec c /\
  forall r', Checker.add r' (snd (Checker.add r c)) = Checker.add r' c.
Proof.
  intros H _. rewrite (add_raise_keeps_state _ _ _ H). now repeat split.
Qed.

(** Under the two unchecked orderings nothing is compared. *)
Lemma add_all_unchecked (recs : list Rec) (c : SortOrderChecker) :
  _sort_f c = None ->
  Checker.add_all recs c
  = (Ok tt, {| _last_rec := match last recs with
                            | Some r => Some r
                            | None => _last_rec c
                            end;
               _sort_f := None |}).
Proof.
  revert c; induction recs as [|rec recs IH]; intros c Hf; cbn [Checker.add_all].
  - destruct c as [l f]. cbn in Hf. now subst f.
  - unfold bind. rewrite add_cases, Hf.
    replace (match _last_rec c with Some _ | _ => (Ok tt, accepted rec c) end)
      with (Ok tt, accepted rec c) by now destruct (_last_rec c).
    rewrite IH by exact Hf. cbn [accepted _last_rec].
    rewrite last_cons. now destruct (last recs).
Qed.

(** C2: a checker built for [Unknown] or [Unsorted] is built without
    error and holds no key function; after any sequence of adds, every
    further [add] returns normally and stores the record as the previous
    one. *)
Theorem C2_unchecked_orderings
    (sort_order : SortOrder) (recs : list Rec) (rec : Rec) :
  class_of sort_order = Unknown \/ class_of sort_order = Unsorted ->
  exists c0 c,
    Checker.__init__ sort_order = Ok c0 /\
    c0 = {| _last_rec := None; _sort_f := None |} /\
    Checker.add_all recs c0 = (Ok tt, c) /\
    c = {| _last_rec := last recs; _sort_f := None |} /\
    Checker.add rec c = (Ok tt, {| _last_rec := Some rec; _sort_f := None |}).
Proof.
  intros Hcls. eexists _, _.
  split.
  { unfold Checker.__init__, sort_key. now destruct Hcls as [-> | ->]. }
  split; [reflexivity|]. split.
  { rewrite add_all_unchecked by reflexivity. cbn [_last_rec].
    instantiate (1 := {| _last_rec := last recs; _sort_f := None |}).
    now destruct (last recs). }
  split; [reflexivity|].
  rewrite add_cases. cbn [_last_rec _sort_f]. now destruct (last recs).
Qed.

Lemma C2_unchecked_orderings_witness :
  exists c0 c,
    Checker.__init__ Sample.unsorted = Ok c0 /\
    Checker.add_all [Sample.chr2_early] c0 = (Ok tt, c) /\
    fst (Checker.add Sample.chr1_late c) = Ok tt.
Proof.
  destruct (C2_unchecked_orderings Sample.unsorted [Sample.chr2_early]
              Sample.chr1_late (or_intror eq_refl))
    as (c0 & c & Hi & _ & Ha & _ & Hr).
  exists c0, c. rewrite Hr. auto.
Defined.

Lemma C9_violation_keeps_state_witness :
  let c := {| _last_rec := Some Sample.chr2_early;
              _sort_f := Some (fun record =>
                rmap KCoordinate
                     (_CoordinateKey.__init__ record (Some Sample.contigs))) |} in
  fst (Checker.add Sample.chr1_late c)
  = Raise (Checker.out_of_order Sample.chr2_early Sample.chr1_late) /\
  snd (Checker.add Sample.chr1_late c) = c.
Proof.
  intros c. split; [reflexivity|].
  refine (proj1 (C9_violation_keeps_state c Sample.chr1_late
                   (Checker.out_of_order Sample.chr2_early Sample.chr1_late)
                   eq_refl _)).
  eexists. split; [reflexivity|]. eexists. reflexivity.
Defined.

(** *** Which exceptions an [add] can raise *)

Lemma compare_raises (a b : PyVal) (e : exn) :
  SortOrderKey.compare a b = Raise e -> e = TypeError.
Proof.
  destruct a, b; cbn; try discriminate; now intros [= <-].
Qed.

Lemma rbind_raise {A B} (m : result A) (k : A -> result B) (e : exn) :
  rbind m k = Raise e ->
  m = Raise e \/ exists a, m = Ok a /\ k a = Raise e.
Proof. destruct m as [a|e']; cbn; [eauto | intros [= <-]; auto]. Qed.

Lemma coordinate_cmp_raises (c1 c2 : CoordinateKey) (e : exn) :
  _CoordinateKey.__cmp__ c1 c2 = Raise e -> e = TypeError.
Proof.
  unfold _CoordinateKey.__cmp__. intros H.
  apply rbind_raise in H as [H | (d1 & _ & H)]; [eapply compare_raises, H|].
  apply rbind_raise in H as [H | (d2 & _ & H)].
  { destruct (d1 =? 0); [eapply compare_raises, H | discriminate]. }
  apply rbind_raise in H as [H | (d3 & _ & H)]; [|discriminate].
  destruct (d2 =? 0); [eapply compare_raises, H | discriminate].
Qed.

Lemma cmp_raises (k1 k2 : Key) (e : exn) :
  __cmp__ k1 k2 = Raise e -> e = TypeError \/ e = AttributeError.
Proof.
  destruct k1 as [c1|b1]; cbn [__cmp__].
  - intros H. left. eapply coordinate_cmp_raises, H.
  - unfold _BarcodesAndCoordinateKey.__cmp__.
    destruct k2 as [c2|b2]; [intros [= <-]; now right|]. intros H. left.
    apply rbind_raise in H as [H | (d1 & _ & H)]; [eapply compare_raises, H|].
    apply rbind_raise in H as [H | (d2 & _ & H)].
    { destruct (d1 =? 0); [eapply compare_raises, H | discriminate]. }
    apply rbind_raise in H as [H | (d3 & _ & H)]; [|discriminate].
    destruct (d2 =? 0); [eapply coordinate_cmp_raises, H | discriminate].
Qed.

Lemma lt_raises (k1 k2 : Key) (e : exn) :
  __lt__ k1 k2 = Raise e -> ~ OrderViolation e.
Proof.
  unfold __lt__. intros H.
  apply rbind_raise in H as [H | (d & _ & H)]; [|discriminate].
  apply cmp_raises in H as [-> | ->]; intros (msg & Hm & _); discriminate.
Qed.

Lemma key_raises (cls : SortOrderClass) (contigs : option (list string))
    (key : Rec -> result Key) (record : Rec) (e : exn) :
  cls = Coordinate \/ cls = BarcodesAndCoordinate ->
  sort_key {| class_of := cls; _contigs := contigs |} = Ok key ->
  key record = Raise e -> ~ OrderViolation e.
Proof.
  intros Hcls Hk.
  destruct (sort_key_coordinate cls contigs Hcls) as (key' & Hk' & Hkey).
  rewrite Hk in Hk'. injection Hk' as <-. rewrite Hkey.
  destruct (no_accessor cls record);
    [intros [= <-] (msg & Hm & _); discriminate|].
  unfold _CoordinateKey.__init__.
  destruct (rec_locatable record) as [loc|]; cbn [rbind].
  - destruct contigs as [[|y t]|]; cbn [rbind]; try discriminate.
    destruct (index (chromosome loc) (y :: t)); cbn [rbind]; [discriminate|].
    intros [= <-] (msg & [= <-] & post & H).
    rewrite !append_cons in H. discriminate.
  - intros [= <-] (msg & [= <-] & post & H).
    rewrite !append_cons in H. discriminate.
Qed.

Lemma out_of_order_violation (p r : Rec) :
  OrderViolation (Checker.out_of_order p r).
Proof.
  eexists. split; [reflexivity|]. eexists. reflexivity.
Qed.

Lemma out_of_order_message (p r : Rec) :
  exists msg,
    Checker.out_of_order p r = ValueError msg /\
    contains msg (rec_str p) /\ contains msg (rec_str r).
Proof.
  eexists. split; [reflexivity|]. split.
  - apply contains_app_r, contains_app_r, contains_app_l, contains_refl.
  - apply contains_app_r, contains_app_r, contains_app_r, contains_app_r,
      contains_refl.
Qed.

(** [add] after a truthy previous record, in terms of [key_lt]. *)
Lemma add_after_truthy (key : Rec -> result Key) (c : SortOrderChecker)
    (p r : Rec) :
  _last_rec c = Some p -> _sort_f c = Some key -> rec_bool p = true ->
  (key_lt key r p = true ->
   Checker.add r c = (Raise (Checker.out_of_order p r), c)) /\
  (key_lt key r p = false ->
   (Checker.add r c = (Ok tt, accepted r c) /\ key_ge key r p = true) \/
   (exists e, Checker.add r c = (Raise e, c) /\
              (key r = Raise e \/ key p = Raise e \/
               exists kr kp, key r = Ok kr /\ key p = Ok kp /\
                             __lt__ kr kp = Raise e))).
Proof.
  intros Hl Hf Hb. rewrite add_cases, Hl, Hf, Hb. unfold key_lt, key_ge.
  destruct (key r) as [kr|e1]; [|split; [discriminate|right; eauto]].
  destruct (key p) as [kp|e2]; [|split; [discriminate|right; eauto]].
  destruct (__lt__ kr kp) as [[|]|e3] eqn:E; (split; [|intros H]);
    try discriminate.
  - reflexivity.
  - left. now split.
  - right. exists e3. split; [reflexivity|]. right. right. now exists kr, kp.
Qed.

Lemma checker_bound (sort_order : SortOrder) (ci c0 : SortOrderChecker)
    (prior : list Rec) :
  class_of sort_order = Coordinate \/ class_of sort_order = BarcodesAndCoordinate ->
  Checker.__init__ sort_order = Ok ci ->
  Checker.add_all prior ci = (Ok tt, c0) ->
  exists key, sort_key sort_order = Ok key /\ _sort_f c0 = Some key.
Proof.
  intros Hcls Hi Ha. destruct sort_order as [cls contigs]. cbn [class_of] in Hcls.
  destruct (sort_key_coordinate cls contigs Hcls) as (key & Hk & _).
  exists key. split; [exact Hk|].
  unfold Checker.__init__ in Hi. rewrite Hk in Hi. injection Hi as <-.
  now rewrite (add_all_sort_f _ _ _ Ha).
Qed.

(** X17: for a checker bound to [Coordinate] or [BarcodesAndCoordinate],
    after any accepted records and then a truthy record [p] accepted,
    [add r] raises an order violation if and only if [key(r) < key(p)]; the
    exception then raised names [p] and [r] by their [str()] forms and
    leaves the checker as it was; and whenever [add r] returns normally [r]
    is the new previous record. *)
Theorem order_violation_after_truthy
    (sort_order : SortOrder) (ci c0 c : SortOrderChecker)
    (prior : list Rec) (p r : Rec) :
  class_of sort_order = Coordinate \/ class_of sort_order = BarcodesAndCoordinate ->
  Checker.__init__ sort_order = Ok ci ->
  Checker.add_all prior ci = (Ok tt, c0) ->
  Checker.add p c0 = (Ok tt, c) ->
  rec_bool p = true ->
  exists key,
    sort_key sort_order = Ok key /\
    ((exists e, fst (Checker.add r c) = Raise e /\ OrderViolation e)
     <-> key_lt key r p = true) /\
    (key_lt key r p = true ->
     Checker.add r c = (Raise (Checker.out_of_order p r), c) /\
     exists msg,
       Checker.out_of_order p r = ValueError msg /\
       contains msg (rec_str p) /\ contains msg (rec_str r)) /\
    (forall c', Checker.add r c = (Ok tt, c') ->
                _last_rec c' = Some r /\ _sort_f c' = Some key).
Proof.
  intros Hcls Hi Ha Hp Hb.
  destruct (checker_bound _ _ _ _ Hcls Hi Ha) as (key & Hk & Hf).
  exists key. split; [exact Hk|].
  apply add_ok_accepts in Hp. subst c.
  destruct (add_after_truthy key (accepted p c0) p r eq_refl Hf Hb) as [Hlt Hge].
  split; [split|split].
  - intros (e & He & Hv).
    destruct (key_lt key r p) eqn:E; [reflexivity|]. exfalso.
    destruct (Hge eq_refl) as [[Hok _] | (e' & Hr & Hwhy)];
      rewrite ?Hok, ?Hr in He; [discriminate|].
    cbn [fst] in He. injection He as ->.
    destruct sort_order as [cls contigs]. cbn [class_of] in Hcls.
    destruct Hwhy as [Hwhy | [Hwhy | (kr & kp & _ & _ & Hwhy)]].
    + exact (key_raises _ _ _ _ _ Hcls Hk Hwhy Hv).
    + exact (key_raises _ _ _ _ _ Hcls Hk Hwhy Hv).
    + exact (lt_raises _ _ _ Hwhy Hv).
  - intros E. exists (Checker.out_of_order p r). rewrite (Hlt E).
    split; [reflexivity | apply out_of_order_violation].
  - intros E. split; [exact (Hlt E) | apply out_of_order_message].
  - intros c' Hok. apply add_ok_accepts in Hok. subst c'. now split.
Qed.

Lemma order_violation_after_truthy_witness :
  exists ci c key,
    Checker.__init__ Sample.coordinate = Ok ci /\
    Checker.add Sample.chr2_early ci = (Ok tt, c) /\
    sort_key Sample.coordinate = Ok key /\
    key_lt key Sample.chr1_late Sample.chr2_early = true /\
    Checker.add Sample.chr1_late c
    = (Raise (Checker.out_of_order Sample.chr2_early Sample.chr1_late), c).
Proof.
  eexists _, _.
  destruct (order_violation_after_truthy Sample.coordinate _ _ _ []
              Sample.chr2_early Sample.chr1_late
              (or_introl eq_refl) eq_refl eq_refl eq_refl eq_refl)
    as (key & Hk & _ & Hlt & _).
  exists key. injection Hk as <-.
  split; [reflexivity|]. split; [reflexivity|]. split; [reflexivity|].
  split; [reflexivity|]. exact (proj1 (Hlt eq_refl)).
Defined.

(** C1: the code breaks the claim after a falsy previous record.
    [__iadd__] tests [self._last_rec] by its truth value, not against
    [None].  Under [Coordinate] without contigs the empty record (every
    field null, length 0) is accepted; [chr1_late] then has the lesser key
    (non-null before null), so the claim requires an order violation, and
    [add] accepts it instead. *)
Lemma C1_falsy_previous_not_compared :
  let key := fun record =>
    rmap KCoordinate (_CoordinateKey.__init__ record None) in
  let ci := {| _last_rec := None; _sort_f := Some key |} in
  let c := snd (Checker.add Sample.empty ci) in
  Checker.__init__ Sample.natural = Ok ci /\
  Checker.add Sample.empty ci = (Ok tt, c) /\
  key_lt key Sample.chr1_late Sample.empty = true /\
  fst (Checker.add Sample.chr1_late c) = Ok tt /\
  ~ ((exists e, fst (Checker.add Sample.chr1_late c) = Raise e /\ OrderViolation e)
     <-> key_lt key Sample.chr1_late Sample.empty = true).
Proof.
  cbv zeta. split; [reflexivity|]. split; [reflexivity|].
  split; [reflexivity|]. split; [reflexivity|].
  intros [_ H]. destruct (H eq_refl) as (e & He & _). discriminate He.
Qed.

(** ** The enforcing iterator *)

Lemma next_cases (self : SortOrderEnforcingIterator) :
  Enforcing.__next__ self =
  match _iter self with
  | [] => (Raise StopIteration, self)
  | rec :: rest =>
      match Checker.add rec (_checker self) with
      | (Ok _, c) => (Ok rec, {| _checker := c; _iter := rest |})
      | (Raise e, c) => (Raise e, {| _checker := c; _iter := rest |})
      end
  end.
Proof.
  unfold Enforcing.__next__, Enforcing.next_iter, Enforcing.on_checker, bind, ret.
  destruct (_iter self) as [|rec rest]; [reflexivity|]. cbn [_checker _iter].
  now destruct (Checker.add rec (_checker self)) as [[[]|e] c].
Qed.

(** Records the checker accepts come out unchanged, one per call. *)
Lemma consume_prefix (pre rest : list Rec) (c c' : SortOrderChecker) (fuel : nat) :
  Checker.add_all pre c = (Ok tt, c') ->
  Enforcing.consume (length pre + fuel) {| _checker := c; _iter := pre ++ rest |}
  = match Enforcing.consume fuel {| _checker := c'; _iter := rest |} with
    | Some (recs, o) => Some (pre ++ recs, o)
    | None => None
    end.
Proof.
  revert c; induction pre as [|rec pre IH]; intros c; cbn [Checker.add_all].
  - intros [= <-]. cbn [length Nat.add app].
    now destruct (Enforcing.consume fuel _) as [[recs o]|].
  - unfold bind.
    destruct (Checker.add rec c) as [[[]|e] c1] eqn:E; [|discriminate].
    intros H. cbn [length Nat.add app Enforcing.consume].
    rewrite next_cases. cbn [_iter _checker]. rewrite E, (IH _ H).
    now destruct (Enforcing.consume fuel _) as [[recs o]|].
Qed.

Lemma consume_short (recs : list Rec) (c c' : SortOrderChecker) (fuel : nat) :
  Checker.add_all recs c = (Ok tt, c') ->
  (fuel <= length recs)%nat ->
  Enforcing.consume fuel {| _checker := c; _iter := recs |} = None.
Proof.
  revert c fuel; induction recs as [|rec recs IH]; intros c fuel;
    cbn [Checker.add_all length].
  - intros _ Hf. now replace fuel with O by lia.
  - unfold bind.
    destruct (Checker.add rec c) as [[[]|e] c1] eqn:E; [|discriminate].
    intros H Hf. destruct fuel as [|fuel]; [reflexivity|].
    cbn [Enforcing.consume]. rewrite next_cases. cbn [_iter _checker].
    rewrite E, (IH _ fuel H) by lia. reflexivity.
Qed.

Lemma consume_exhausted (c : SortOrderChecker) (fuel : nat) :
  Enforcing.consume (S fuel) {| _checker := c; _iter := [] |}
  = Some ([], Enforcing.Exhausted).
Proof. reflexivity. Qed.

(** A sequence in order is accepted whole, from any state whose previous
    record it follows in order. *)
Lemma add_all_in_order (key : Rec -> result Key) (recs : list Rec)
    (c : SortOrderChecker) :
  _sort_f c = Some key -> follows key c recs = true ->
  Checker.add_all recs c
  = (Ok tt, {| _last_rec := match last recs with
                            | Some r => Some r
                            | None => _last_rec c
                            end;
               _sort_f := Some key |}).
Proof.
  revert c; induction recs as [|rec recs IH]; intros c Hf Ho;
    cbn [Checker.add_all].
  - destruct c as [l f]. cbn in Hf. now subst f.
  - assert (Ha : Checker.add rec c = (Ok tt, accepted rec c)).
    { rewrite add_cases, Hf. unfold follows in Ho.
      destruct (_last_rec c) as [p|]; [|reflexivity].
      cbn [in_order_from] in Ho. apply andb_true_iff in Ho as [Hge _].
      unfold key_ge in Hge. destruct (rec_bool p); [|reflexivity].
      destruct (key rec) as [kr|]; [|discriminate].
      destruct (key p) as [kp|]; [|discriminate].
      now destruct (__lt__ kr kp) as [[|]|]. }
    unfold bind. rewrite Ha, IH.
    + cbn [accepted _last_rec]. rewrite last_cons. now destruct (last recs).
    + exact Hf.
    + unfold follows in *. cbn [accepted _last_rec].
      destruct (_last_rec c) as [p|]; [|exact Ho].
      cbn [in_order_from] in Ho. now apply andb_true_iff in Ho as [_ Ho].
Qed.

Lemma enforcing_init (sort_order : SortOrder) (recs : list Rec) :
  exists ci,
    Enforcing.__init__ recs sort_order = Ok {| _checker := ci; _iter := recs |} /\
    _last_rec ci = None /\
    match sort_key sort_order with
    | Ok key => _sort_f ci = Some key
    | Raise _ => _sort_f ci = None
    end.
Proof.
  unfold Enforcing.__init__, Checker.__init__.
  destruct sort_order as [[] contigs]; cbn; eauto.
Qed.

Lemma accepted_whole (sort_order : SortOrder) (ci : SortOrderChecker)
    (recs : list Rec) :
  _last_rec ci = None ->
  match sort_key sort_order with
  | Ok key => _sort_f ci = Some key
  | Raise _ => _sort_f ci = None
  end ->
  in_declared_order sort_order recs = true ->
  exists c', Checker.add_all recs ci = (Ok tt, c').
Proof.
  intros Hl Hf Ho. unfold in_declared_order in Ho.
  destruct (sort_key sort_order) as [key|e].
  - eexists. apply (add_all_in_order key); [exact Hf|].
    unfold follows. now rewrite Hl.
  - eexists. now apply add_all_unchecked.
Qed.

Lemma add_all_app (l1 l2 : list Rec) (c c1 : SortOrderChecker) :
  Checker.add_all l1 c = (Ok tt, c1) ->
  Checker.add_all (l1 ++ l2) c = Checker.add_all l2 c1.
Proof.
  revert c; induction l1 as [|rec l1 IH]; intros c; cbn [Checker.add_all app].
  - now intros [= <-].
  - unfold bind.
    destruct (Checker.add rec c) as [[[]|e] c'] eqn:E; [|discriminate].
    apply IH.
Qed.

Lemma consume_accepted (recs : list Rec) (c c' : SortOrderChecker) (fuel : nat) :
  Checker.add_all recs c = (Ok tt, c') ->
  (length recs < fuel)%nat ->
  Enforcing.consume fuel {| _checker := c; _iter := recs |}
  = Some (recs, Enforcing.Exhausted).
Proof.
  intros Ha Hlt.
  replace fuel with (length recs + S (fuel - length recs - 1))%nat by lia.
  pose proof (consume_prefix recs [] c c' (S (fuel - length recs - 1)) Ha) as H.
  rewrite app_nil_r in H. rewrite H, consume_exhausted.
  now rewrite app_nil_r.
Qed.

(** X18: the iterator is built for every ordering.  Over a sequence in
    the declared order, pulling until the end yields exactly the sequence,
    unchanged and in order, and ends by [StopIteration] at the call after
    the last record, not before.  Over a sequence whose first out-of-order
    record [r] follows a truthy record [p], pulling yields the records up to
    [p] unchanged and the call that would return [r] raises the order
    violation naming [p] and [r]. *)
Theorem enforcing_iterator_in_order (sort_order : SortOrder) (recs : list Rec) :
  exists it,
    Enforcing.__init__ recs sort_order = Ok it /\
    (in_declared_order sort_order recs = true ->
     forall fuel,
       ((length recs < fuel)%nat ->
        Enforcing.consume fuel it = Some (recs, Enforcing.Exhausted)) /\
       ((fuel <= length recs)%nat -> Enforcing.consume fuel it = None)) /\
    (forall key pre p r post,
        sort_key sort_order = Ok key ->
        recs = pre ++ p :: r :: post ->
        in_order key (pre ++ [p]) = true ->
        rec_bool p = true ->
        key_lt key r p = true ->
        forall fuel,
          (length pre + 1 < fuel)%nat ->
          Enforcing.consume fuel it
          = Some (pre ++ [p], Enforcing.Failed (Checker.out_of_order p r)) /\
          OrderViolation (Checker.out_of_order p r)).
Proof.
  destruct (enforcing_init sort_order recs) as (ci & Hi & Hl & Hf).
  eexists. split; [exact Hi|]. split.
  - intros Ho fuel.
    destruct (accepted_whole _ _ _ Hl Hf Ho) as (c' & Ha). split.
    + intros Hlt. exact (consume_accepted _ _ _ _ Ha Hlt).
    + intros Hle. exact (consume_short _ _ _ _ Ha Hle).
  - intros key pre p r post Hk -> Ho Hb Hlt fuel Hfuel.
    split; [|apply out_of_order_violation].
    rewrite Hk in Hf.
    assert (Ha := add_all_in_order key (pre ++ [p]) ci Hf).
    unfold follows in Ha. rewrite Hl in Ha. specialize (Ha Ho).
    rewrite last_snoc in Ha.
    replace (pre ++ p :: r :: post) with ((pre ++ [p]) ++ r :: post)
      by now rewrite <- app_assoc.
    replace fuel with (length (pre ++ [p]) + S (fuel - length pre - 2))%nat
      by (rewrite length_app; cbn [length]; lia).
    rewrite (consume_prefix _ _ _ _ _ Ha).
    cbn [Enforcing.consume]. rewrite next_cases. cbn [_iter _checker].
    destruct (add_after_truthy key
                {| _last_rec := Some p; _sort_f := Some key |} p r
                eq_refl eq_refl Hb) as [Hraise _].
    rewrite (Hraise Hlt). cbn. now rewrite app_nil_r.
Qed.

Lemma enforcing_iterator_in_order_witness :
  exists it,
    Enforcing.__init__
      [Sample.chr1_late; Sample.chr2_early; Sample.chr1_late; Sample.chrX]
      Sample.coordinate = Ok it /\
    Enforcing.consume 5 it
    = Some ([Sample.chr1_late; Sample.chr2_early],
            Enforcing.Failed
              (Checker.out_of_order Sample.chr2_early Sample.chr1_late)).
Proof.
  destruct (enforcing_iterator_in_order Sample.coordinate
              [Sample.chr1_late; Sample.chr2_early; Sample.chr1_late; Sample.chrX])
    as (it & Hi & _ & Hbad).
  exists it. split; [exact Hi|].
  exact (proj1 (Hbad _ [Sample.chr1_late] Sample.chr2_early Sample.chr1_late
                  [Sample.chrX] eq_refl eq_refl eq_refl eq_refl eq_refl
                  5%nat ltac:(cbn; lia))).
Defined.

(** C6: the code breaks the claim when the record before the out-of-order
    one is falsy, through the truth-value test of [self._last_rec] in
    [__iadd__].  Under [Coordinate] without contigs, [chr1_late] has a
    lesser key than the empty record before it, so the claim requires the
    pull for [chr1_late] to raise; the iterator yields both records and
    ends normally. *)
Lemma C6_falsy_previous_yielded :
  exists it key,
    Enforcing.__init__ [Sample.empty; Sample.chr1_late] Sample.natural = Ok it /\
    sort_key Sample.natural = Ok key /\
    key_lt key Sample.chr1_late Sample.empty = true /\
    in_declared_order Sample.natural [Sample.empty; Sample.chr1_late] = false /\
    Enforcing.consume 3 it
    = Some ([Sample.empty; Sample.chr1_late], Enforcing.Exhausted).
Proof.
  eexists _, _. repeat split; reflexivity.
Qed.

(** * Further properties of the code *)

(** ** The comparison is an order *)

Lemma string_compare_trans_lt (a b c : string) :
  String.compare a b = Lt -> String.compare b c = Lt -> String.compare a c = Lt.
Proof.
  intros Hab Hbc.
  assert (Hle : String.le a c).
  { transitivity b; unfold String.le, String.leb; [now rewrite Hab | now rewrite Hbc]. }
  unfold String.le, String.leb in Hle.
  destruct (String.compare a c) eqn:E; [|reflexivity|destruct Hle].
  apply String.compare_eq_iff in E. subst c.
  rewrite String.compare_antisym, Hab in Hbc. discriminate.
Qed.

Lemma compare_zero (a b : PyVal) : SortOrderKey.compare a b = Ok 0 -> a = b.
Proof.
  destruct a as [|x|x], b as [|y|y];
    rewrite ?compare_str, ?compare_int; cbn; try discriminate; try reflexivity.
  - destruct (Z.compare x y) eqn:E; try discriminate.
    now rewrite (Z.compare_eq _ _ E).
  - destruct (String.compare x y) eqn:E; try discriminate.
    now rewrite (String.compare_eq_iff _ _ E).
Qed.

Lemma sign_opp (c : comparison) : sign (CompOpp c) = - sign c.
Proof. now destruct c. Qed.

Lemma compare_antisym_Ok (a b : PyVal) (d : Z) :
  SortOrderKey.compare a b = Ok d -> SortOrderKey.compare b a = Ok (- d).
Proof.
  destruct a as [|x|x], b as [|y|y];
    rewrite ?compare_str, ?compare_int; try discriminate;
    try (now intros [= <-]).
  - intros [= <-]. now rewrite (Z.compare_antisym x y), sign_opp.
  - intros [= <-]. now rewrite (String.compare_antisym y x), sign_opp.
Qed.

(** X1: [compare] is antisymmetric, on results and on failures: swapping
    the arguments negates an integer result, and the swapped call raises
    exactly when the original one does. *)
Theorem compare_antisym (a b : PyVal) :
  match SortOrderKey.compare a b with
  | Ok d => SortOrderKey.compare b a = Ok (- d)
  | Raise e => SortOrderKey.compare b a = Raise e
  end.
Proof.
  destruct a as [|x|x], b as [|y|y];
    rewrite ?compare_str, ?compare_int; try reflexivity.
  - now rewrite (Z.compare_antisym x y), sign_opp.
  - now rewrite (String.compare_antisym y x), sign_opp.
Qed.

Lemma compare_trans_lt (a b c : PyVal) :
  SortOrderKey.compare a b = Ok (-1) -> SortOrderKey.compare b c = Ok (-1) ->
  SortOrderKey.compare a c = Ok (-1).
Proof.
  destruct a as [|x|x], b as [|y|y], c as [|z|z];
    rewrite ?compare_str, ?compare_int; cbn; try discriminate; try reflexivity.
  - destruct (Z.compare_spec x y) as [?|Hxy|?]; try discriminate.
    destruct (Z.compare_spec y z) as [?|Hyz|?]; try discriminate. intros _ _.
    assert (E : Z.compare x z = Lt) by (apply Z.compare_lt_iff; lia).
    now rewrite E.
  - destruct (String.compare x y) eqn:E1; try discriminate.
    destruct (String.compare y z) eqn:E2; try discriminate. intros _ _.
    now rewrite (string_compare_trans_lt _ _ _ E1 E2).
Qed.

Lemma compare_fields_antisym (xs ys : list PyVal) (d : Z) :
  compare_fields xs ys = Ok d -> compare_fields ys xs = Ok (- d).
Proof.
  revert ys d; induction xs as [|x xs IH]; intros [|y ys] d; cbn [compare_fields];
    try (now intros [= <-]).
  destruct (SortOrderKey.compare x y) as [c|] eqn:E; cbn [rbind]; [|discriminate].
  rewrite (compare_antisym_Ok _ _ _ E). cbn [rbind].
  destruct (Z.eqb_spec c 0) as [->|Hc].
  - cbn. apply IH.
  - intros [= <-]. destruct (Z.eqb_spec (- c) 0); [lia | reflexivity].
Qed.

Lemma compare_fields_zero (xs ys : list PyVal) :
  length xs = length ys -> compare_fields xs ys = Ok 0 -> xs = ys.
Proof.
  revert ys; induction xs as [|x xs IH]; intros [|y ys]; cbn [length compare_fields];
    try discriminate; [reflexivity|].
  intros [= Hlen].
  destruct (SortOrderKey.compare x y) as [c|] eqn:E; cbn [rbind]; [|discriminate].
  destruct (Z.eqb_spec c 0) as [->|Hc].
  - intros H. now rewrite (compare_zero _ _ E), (IH _ Hlen H).
  - intros [= ->]. congruence.
Qed.

Lemma compare_fields_refl (xs : list PyVal) : compare_fields xs xs = Ok 0.
Proof.
  induction xs as [|x xs IH]; cbn [compare_fields]; [reflexivity|].
  now rewrite compare_refl.
Qed.

Lemma compare_fields_trans_lt (xs ys zs : list PyVal) :
  compare_fields xs ys = Ok (-1) -> compare_fields ys zs = Ok (-1) ->
  compare_fields xs zs = Ok (-1).
Proof.
  revert ys zs; induction xs as [|x xs IH]; intros [|y ys] [|z zs];
    cbn [compare_fields]; try discriminate.
  destruct (SortOrderKey.compare x y) as [c1|] eqn:E1; cbn [rbind]; [|discriminate].
  destruct (SortOrderKey.compare y z) as [c2|] eqn:E2; cbn [rbind]; [|discriminate].
  destruct (Z.eqb_spec c1 0) as [->|H1].
  - apply compare_zero in E1. subst y. rewrite E2. cbn [rbind].
    destruct (Z.eqb_spec c2 0); [apply IH | tauto].
  - intros [= ->]. destruct (Z.eqb_spec c2 0) as [->|H2].
    + apply compare_zero in E2. subst z. rewrite E1. now cbn.
    + intros [= ->]. now rewrite (compare_trans_lt _ _ _ E1 E2).
Qed.

Lemma fields_inj (k1 k2 : Key) :
  same_class k1 k2 = true -> fields k1 = fields k2 -> k1 = k2.
Proof.
  destruct k1 as [[c1 s1 e1]|[t1 n1 [c1 s1 e1]]],
           k2 as [[c2 s2 e2]|[t2 n2 [c2 s2 e2]]]; try discriminate;
    cbn; intros _ H; injection H; intros; subst; reflexivity.
Qed.

Lemma fields_length (k1 k2 : Key) :
  same_class k1 k2 = true -> length (fields k1) = length (fields k2).
Proof. now destruct k1, k2. Qed.

Lemma same_class_sym (k1 k2 : Key) : same_class k1 k2 = same_class k2 k1.
Proof. now destruct k1, k2. Qed.

Lemma same_class_trans (k1 k2 k3 : Key) :
  same_class k1 k2 = true -> same_class k2 k3 = true -> same_class k1 k3 = true.
Proof. now destruct k1, k2, k3. Qed.

(** X2: on keys of one class, [__cmp__] is antisymmetric, [__eq__] holds
    exactly for keys with the same fields, and [__lt__] is irreflexive and
    transitive: the comparison the checker relies on is an order. *)
Theorem key_order (k1 k2 k3 : Key) :
  same_class k1 k2 = true -> same_class k2 k3 = true ->
  (forall d, __cmp__ k1 k2 = Ok d -> __cmp__ k2 k1 = Ok (- d)) /\
  (__eq__ k1 k2 = Ok true <-> k1 = k2) /\
  __lt__ k1 k1 = Ok false /\
  (__lt__ k1 k2 = Ok true -> __lt__ k2 k3 = Ok true -> __lt__ k1 k3 = Ok true).
Proof.
  intros H12 H23.
  assert (H21 : same_class k2 k1 = true) by now rewrite same_class_sym.
  assert (H13 := same_class_trans _ _ _ H12 H23).
  assert (H11 : same_class k1 k1 = true) by now destruct k1.
  unfold __eq__, __lt__.
  rewrite (cmp_fields _ _ H12), (cmp_fields _ _ H21), (cmp_fields _ _ H23),
          (cmp_fields _ _ H13), (cmp_fields _ _ H11).
  split; [|split; [|split]].
  - intros d. apply compare_fields_antisym.
  - split.
    + destruct (compare_fields (fields k1) (fields k2)) as [d|] eqn:E;
        cbn [rbind]; [|discriminate].
      intros [= Hd]. apply Z.eqb_eq in Hd. subst d.
      apply (fields_inj _ _ H12).
      now apply compare_fields_zero; [apply fields_length|].
    + intros <-. now rewrite compare_fields_refl.
  - now rewrite compare_fields_refl.
  - destruct (compare_fields (fields k1) (fields k2)) as [d1|] eqn:E1;
      cbn [rbind]; [|discriminate].
    destruct (compare_fields (fields k2) (fields k3)) as [d2|] eqn:E2;
      cbn [rbind]; [|discriminate].
    intros [= L1] [= L2]. apply Z.ltb_lt in L1, L2.
    destruct (compare_fields_three_way _ _ _ E1) as [->|[->| ->]]; try lia.
    destruct (compare_fields_three_way _ _ _ E2) as [->|[->| ->]]; try lia.
    now rewrite (compare_fields_trans_lt _ _ _ E1 E2).
Qed.

Lemma key_order_witness :
  let k1 := KCoordinate {| key_chromosome := PInt 0; key_start := PInt 5;
                           key_end := PNone |} in
  let k2 := KCoordinate {| key_chromosome := PInt 0; key_start := PInt 7;
                           key_end := PInt 9 |} in
  let k3 := KCoordinate {| key_chromosome := PInt 1; key_start := PNone;
                           key_end := PInt 2 |} in
  __lt__ k1 k2 = Ok true /\ __lt__ k2 k3 = Ok true /\ __lt__ k1 k3 = Ok true.
Proof.
  intros k1 k2 k3. split; [reflexivity|]. split; [reflexivity|].
  exact (proj2 (proj2 (proj2 (key_order k1 k2 k3 eq_refl eq_refl)))
           eq_refl eq_refl).
Defined.

(** ** Keys derived by one ordering *)

Lemma coordinate_key_shape (record : Rec) (contigs : option (list string))
    (c : CoordinateKey) :
  _CoordinateKey.__init__ record contigs = Ok c ->
  exists loc,
    rec_locatable record = Some loc /\
    key_start c = of_int (start loc) /\
    key_end c = of_int (end_ loc) /\
    ((exists y t i, contigs = Some (y :: t) /\
                    index (chromosome loc) (y :: t) = Some i /\
                    key_chromosome c = PInt (Z.of_nat i)) \/
     ((contigs = None \/ contigs = Some []) /\
      key_chromosome c = chromosome loc)).
Proof.
  unfold _CoordinateKey.__init__.
  destruct (rec_locatable record) as [loc|]; [|discriminate].
  destruct contigs as [[|y t]|]; cbn [rbind].
  - intros [= <-]. exists loc. repeat split. right. auto.
  - destruct (index (chromosome loc) (y :: t)) as [i|] eqn:E; cbn [rbind];
      [|discriminate].
    intros [= <-]. exists loc. repeat split. left. now exists y, t, i.
  - intros [= <-]. exists loc. repeat split. right. auto.
Qed.

Lemma compare_fields_total (xs ys : list PyVal) :
  Forall2 (fun a b => exists d, SortOrderKey.compare a b = Ok d) xs ys ->
  exists d, compare_fields xs ys = Ok d.
Proof.
  induction 1 as [|x y xs ys (c & Hc) _ (d & Hd)]; cbn [compare_fields]; [eauto|].
  rewrite Hc. cbn [rbind]. destruct (c =? 0); eauto.
Qed.

Lemma derived_key_shape (sort_order : SortOrder) (key : Rec -> result Key)
    (r : Rec) (k : Key) :
  sort_key sort_order = Ok key -> key r = Ok k ->
  exists c,
    _CoordinateKey.__init__ r (_contigs sort_order) = Ok c /\
    ((class_of sort_order = Coordinate /\ k = KCoordinate c) \/
     (class_of sort_order = BarcodesAndCoordinate /\
      k = KBarcodes
            {| tumor_barcode := of_str (value r "Tumor_Sample_Barcode");
               normal_barcode := of_str (value r "Matched_Norm_Sample_Barcode");
               coordinate := c |})).
Proof.
  destruct sort_order as [cls contigs]. intros Hk.
  assert (Hcls : cls = Coordinate \/ cls = BarcodesAndCoordinate)
    by (destruct cls; try discriminate; auto).
  destruct (sort_key_coordinate cls contigs Hcls) as (key' & Hk' & Hkey).
  rewrite Hk in Hk'. injection Hk' as <-. rewrite Hkey. cbn [_contigs class_of].
  destruct (no_accessor cls r); [discriminate|].
  destruct (_CoordinateKey.__init__ r contigs) as [c|]; [|discriminate].
  cbn [rbind]. intros [= <-]. exists c. split; [reflexivity|].
  destruct Hcls as [-> | ->]; auto.
Qed.

Lemma derived_same_class (sort_order : SortOrder) (key : Rec -> result Key)
    (r1 r2 : Rec) (k1 k2 : Key) :
  sort_key sort_order = Ok key -> key r1 = Ok k1 -> key r2 = Ok k2 ->
  same_class k1 k2 = true.
Proof.
  intros Hk H1 H2.
  destruct (derived_key_shape _ _ _ _ Hk H1) as (c1 & _ & [[E1 ->] | [E1 ->]]),
           (derived_key_shape _ _ _ _ Hk H2) as (c2 & _ & [[E2 ->] | [E2 ->]]);
    try reflexivity; congruence.
Qed.

Lemma derived_ranked (sort_order : SortOrder) (key : Rec -> result Key)
    (r1 r2 : Rec) (k1 k2 : Key) :
  sort_key sort_order = Ok key -> key r1 = Ok k1 -> key r2 = Ok k2 ->
  (exists y t, _contigs sort_order = Some (y :: t)) ->
  exists d, SortOrderKey.compare (key_chromosome (locatable_of k1))
                                 (key_chromosome (locatable_of k2)) = Ok d.
Proof.
  intros Hk H1 H2 (y & t & Hc).
  destruct (derived_key_shape _ _ _ _ Hk H1) as (c1 & I1 & S1),
           (derived_key_shape _ _ _ _ Hk H2) as (c2 & I2 & S2).
  assert (L1 : locatable_of k1 = c1) by (destruct S1 as [[_ ->] | [_ ->]]; reflexivity).
  assert (L2 : locatable_of k2 = c2) by (destruct S2 as [[_ ->] | [_ ->]]; reflexivity).
  rewrite L1, L2.
  destruct (coordinate_key_shape _ _ _ I1) as (l1 & _ & _ & _ & C1),
           (coordinate_key_shape _ _ _ I2) as (l2 & _ & _ & _ & C2).
  destruct C1 as [(? & ? & i & _ & _ & ->) | ([E | E] & _)];
    [|rewrite Hc in E; discriminate..].
  destruct C2 as [(? & ? & j & _ & _ & ->) | ([E | E] & _)];
    [|rewrite Hc in E; discriminate..].
  rewrite compare_int. eauto.
Qed.

Lemma derived_fields_comparable (sort_order : SortOrder)
    (key : Rec -> result Key) (r1 r2 : Rec) (k1 k2 : Key) :
  sort_key sort_order = Ok key -> key r1 = Ok k1 -> key r2 = Ok k2 ->
  (exists d, SortOrderKey.compare (key_chromosome (locatable_of k1))
                                  (key_chromosome (locatable_of k2)) = Ok d) ->
  Forall2 (fun a b => exists d, SortOrderKey.compare a b = Ok d)
          (fields k1) (fields k2).
Proof.
  intros Hk H1 H2 Hchrom.
  destruct (derived_key_shape _ _ _ _ Hk H1) as (c1 & I1 & S1),
           (derived_key_shape _ _ _ _ Hk H2) as (c2 & I2 & S2).
  destruct (coordinate_key_shape _ _ _ I1) as (l1 & _ & Hs1 & He1 & _),
           (coordinate_key_shape _ _ _ I2) as (l2 & _ & Hs2 & He2 & _).
  destruct (compare_of_int (start l1) (start l2)) as (ds & Hds & _).
  destruct (compare_of_int (end_ l1) (end_ l2)) as (de & Hde & _).
  destruct (compare_of_str (value r1 "Tumor_Sample_Barcode")
                           (value r2 "Tumor_Sample_Barcode")) as (dt & Hdt & _).
  destruct (compare_of_str (value r1 "Matched_Norm_Sample_Barcode")
                           (value r2 "Matched_Norm_Sample_Barcode")) as (dn & Hdn & _).
  destruct S1 as [[E1 ->] | [E1 ->]], S2 as [[E2 ->] | [E2 ->]]; try congruence;
    cbn [fields locatable_of tumor_barcode normal_barcode coordinate] in *;
    rewrite Hs1, Hs2, He1, He2; repeat constructor; eauto.
Qed.

(** X3: two keys derived by the same ordering are comparable as soon as
    their chromosome fields are, which is always so when the ordering holds
    a contig list (both fields are then integer ranks): [__cmp__] returns a
    value [d] in {-1, 0, 1}, the reverse comparison returns [-d], and [d] is
    0 exactly when the two keys are the same.  Under [Coordinate] a string
    chromosome field against an integer one raises [TypeError] both ways. *)
Theorem derived_keys_comparable (sort_order : SortOrder)
    (key : Rec -> result Key) (r1 r2 : Rec) (k1 k2 : Key) :
  sort_key sort_order = Ok key -> key r1 = Ok k1 -> key r2 = Ok k2 ->
  ((exists y t, _contigs sort_order = Some (y :: t)) \/
   (exists d, SortOrderKey.compare (key_chromosome (locatable_of k1))
                                   (key_chromosome (locatable_of k2)) = Ok d) ->
   exists d,
     __cmp__ k1 k2 = Ok d /\ __cmp__ k2 k1 = Ok (- d) /\
     (d = -1 \/ d = 0 \/ d = 1) /\ (d = 0 <-> k1 = k2)) /\
  (class_of sort_order = Coordinate ->
   forall s z,
     key_chromosome (locatable_of k1) = PStr s ->
     key_chromosome (locatable_of k2) = PInt z ->
     __cmp__ k1 k2 = Raise TypeError /\ __cmp__ k2 k1 = Raise TypeError).
Proof.
  intros Hk H1 H2. split.
  - intros Hc.
    assert (Hchrom : exists d,
               SortOrderKey.compare (key_chromosome (locatable_of k1))
                                    (key_chromosome (locatable_of k2)) = Ok d).
    { destruct Hc as [Hc | Hc]; [|exact Hc].
      exact (derived_ranked _ _ _ _ _ _ Hk H1 H2 Hc). }
    pose proof (derived_same_class _ _ _ _ _ _ Hk H1 H2) as Hs.
    pose proof (derived_fields_comparable _ _ _ _ _ _ Hk H1 H2 Hchrom) as Hf.
    destruct (compare_fields_total _ _ Hf) as (d & Hd).
    assert (Hs' : same_class k2 k1 = true) by now rewrite same_class_sym.
    exists d. rewrite (cmp_fields _ _ Hs), (cmp_fields _ _ Hs').
    split; [exact Hd|]. split; [now apply compare_fields_antisym|].
    split; [eapply compare_fields_three_way, Hd|]. split.
    + intros ->. apply (fields_inj _ _ Hs).
      now apply compare_fields_zero; [apply fields_length|].
    + intros <-. rewrite compare_fields_refl in Hd. congruence.
  - intros Hcls s z E1 E2.
    destruct (derived_key_shape _ _ _ _ Hk H1) as (c1 & _ & [[_ ->] | [E _]]);
      [|congruence].
    destruct (derived_key_shape _ _ _ _ Hk H2) as (c2 & _ & [[_ ->] | [E _]]);
      [|congruence].
    cbn [locatable_of] in E1, E2.
    unfold __cmp__, _CoordinateKey.__cmp__. cbn [locatable_of].
    now rewrite E1, E2.
Qed.

Lemma derived_keys_comparable_witness :
  exists key k1 k2,
    sort_key Sample.barcodes = Ok key /\
    key Sample.chr1_late = Ok k1 /\ key Sample.chr2_early = Ok k2 /\
    __cmp__ k2 k1 = Ok (-1).
Proof.
  eexists _, _, _. split; [reflexivity|]. split; [reflexivity|].
  split; [reflexivity|].
  destruct (proj1 (derived_keys_comparable Sample.barcodes _ Sample.chr1_late
                     Sample.chr2_early _ _ eq_refl eq_refl eq_refl))
    as (d & Hd & Hr & _).
  - left. now exists "chr1", ["chr2"; "chr3"].
  - injection Hd as <-. exact Hr.
Defined.

(** ** The rank of a chromosome *)

(** X4: the rank given by [contigs.index] is the first position of the
    name: the list holds the name there and nowhere before, so a name
    repeated later in the list keeps its first rank, and two chromosomes
    with the same rank are the same. *)
Theorem index_first_occurrence (x y : PyVal) (l : list string) (i : nat) :
  index x l = Some i ->
  (exists s, x = PStr s /\ l !! i = Some s /\
             forall j, (j < i)%nat -> l !! j <> Some s) /\
  (index y l = Some i -> x = y).
Proof.
  destruct x as [|z|s]; [rewrite index_null; discriminate
                        |rewrite index_not_str by discriminate; discriminate|].
  revert i; induction l as [|z l IH]; intros i; cbn [index]; [discriminate|].
  assert (Hy : forall l' j, index y l' = Some j -> exists s', y = PStr s').
  { intros l' j Hj. destruct y as [|z'|s']; [| |eauto].
    - rewrite index_null in Hj. discriminate.
    - rewrite index_not_str in Hj by discriminate. discriminate. }
  destruct (String.eqb_spec s z) as [->|Hne].
  - intros [= <-]. split.
    + exists z. repeat split. intros j Hj. lia.
    + intros Hi. destruct (Hy (z :: l) 0%nat Hi) as (s' & ->). revert Hi.
      destruct (String.eqb_spec s' z) as [->|Hne']; [reflexivity|].
      destruct (index (PStr s') l); discriminate.
  - destruct (index (PStr s) l) as [i'|] eqn:E; [|discriminate].
    intros [= <-]. destruct (IH i' eq_refl) as ((s0 & [= <-] & Hl & Hfirst) & Hinj).
    split.
    + exists s. repeat split; [exact Hl|].
      intros [|j] Hj; cbn; [congruence | apply Hfirst; lia].
    + intros Hi. destruct (Hy (z :: l) (S i') Hi) as (s' & ->). revert Hi.
      destruct (String.eqb_spec s' z) as [->|Hne']; [discriminate|].
      destruct (index (PStr s') l) as [j|] eqn:E'; [|discriminate].
      intros [= ->]. now apply Hinj.
Qed.

Lemma index_first_occurrence_witness :
  index (PStr "chr2") ["chr1"; "chr2"; "chr3"; "chr2"] = Some 1%nat /\
  ["chr1"; "chr2"; "chr3"; "chr2"] !! 1%nat = Some "chr2".
Proof.
  split; [reflexivity|].
  destruct (index_first_occurrence (PStr "chr2") PNone
              ["chr1"; "chr2"; "chr3"; "chr2"] 1 eq_refl)
    as ((s & [= <-] & Hl & _) & _).
  exact Hl.
Defined.

(** ** What the checker accepts *)

Lemma cmp_refl (k : Key) : __cmp__ k k = Ok 0.
Proof.
  rewrite cmp_fields by now destruct k. apply compare_fields_refl.
Qed.

(** X5: the order is not strict: a record whose key equals the key of the
    stored record is accepted, so the same record may be added twice. *)
Theorem equal_keys_accepted (c : SortOrderChecker) (key : Rec -> result Key)
    (p r : Rec) (k : Key) :
  _last_rec c = Some p -> _sort_f c = Some key ->
  key p = Ok k -> key r = Ok k ->
  Checker.add r c = (Ok tt, accepted r c) /\
  Checker.add r (accepted r c) = (Ok tt, accepted r c).
Proof.
  intros Hl Hf Hp Hr.
  assert (Hlt : __lt__ k k = Ok false) by (unfold __lt__; now rewrite cmp_refl).
  split.
  - rewrite add_cases, Hl, Hf, Hr, Hp, Hlt. now destruct (rec_bool p).
  - rewrite add_cases. cbn [accepted _last_rec _sort_f].
    rewrite Hf, Hr, Hlt. now destruct (rec_bool r).
Qed.

Lemma equal_keys_accepted_witness :
  let c := {| _last_rec := Some Sample.chr2_early;
              _sort_f := Some (fun record =>
                rmap KCoordinate
                     (_CoordinateKey.__init__ record (Some Sample.contigs))) |} in
  Checker.add Sample.chr2_early c = (Ok tt, c).
Proof.
  intros c.
  exact (proj1 (equal_keys_accepted c _ Sample.chr2_early Sample.chr2_early _
                  eq_refl eq_refl eq_refl eq_refl)).
Defined.

Lemma key_ge_iff (key : Rec -> result Key) (r p : Rec) :
  key_ge key r p = true <->
  exists kr kp d, key r = Ok kr /\ key p = Ok kp /\
                  __cmp__ kr kp = Ok d /\ 0 <= d.
Proof.
  unfold key_ge, __lt__. split.
  - destruct (key r) as [kr|]; [|discriminate].
    destruct (key p) as [kp|]; [|discriminate].
    destruct (__cmp__ kr kp) as [d|] eqn:E; cbn [rbind]; [|discriminate].
    intros H. apply negb_true_iff, Z.ltb_ge in H. exists kr, kp, d. auto.
  - intros (kr & kp & d & -> & -> & -> & Hd). cbn [rbind].
    apply negb_true_iff, Z.ltb_ge, Hd.
Qed.

Lemma compare_ge_trans (a b c : PyVal) (d1 d2 : Z) :
  SortOrderKey.compare b a = Ok d1 -> 0 <= d1 ->
  SortOrderKey.compare c b = Ok d2 -> 0 <= d2 ->
  exists d3, SortOrderKey.compare c a = Ok d3 /\ 0 <= d3 /\
             (d3 = 0 -> d1 = 0 /\ d2 = 0).
Proof.
  intros H1 Hd1 H2 Hd2.
  assert (Hok : exists d3, SortOrderKey.compare c a = Ok d3).
  { destruct a as [|x|x], b as [|y|y], c as [|z|z];
      rewrite ?compare_str, ?compare_int in *; cbn in *;
      try discriminate; eauto;
      try (injection H1 as <-; lia); try (injection H2 as <-; lia). }
  destruct Hok as (d3 & H3). exists d3. split; [exact H3|].
  destruct (compare_three_way _ _ _ H3) as [-> | [-> | ->]].
  - exfalso. destruct (compare_three_way _ _ _ H1) as [-> | [-> | ->]]; try lia.
    + apply compare_zero in H1. subst b. rewrite H2 in H3. injection H3 as ->. lia.
    + apply compare_antisym_Ok in H1. cbn in H1.
      pose proof (compare_trans_lt _ _ _ H3 H1) as H. rewrite H2 in H.
      injection H as ->. lia.
  - split; [lia|]. intros _. apply compare_zero in H3. subst c.
    apply compare_antisym_Ok in H1. rewrite H2 in H1. injection H1 as ->. lia.
  - split; [lia | discriminate].
Qed.

Lemma compare_fields_ge_trans (fa fb fc : list PyVal) (d1 d2 : Z) :
  length fb = length fa ->
  compare_fields fb fa = Ok d1 -> 0 <= d1 ->
  compare_fields fc fb = Ok d2 -> 0 <= d2 ->
  exists d3, compare_fields fc fa = Ok d3 /\ 0 <= d3.
Proof.
  revert fb fc d1 d2; induction fa as [|x fa IH]; intros fb fc d1 d2 Hlen.
  - intros _ _ _ _. exists 0. split; [now destruct fc | lia].
  - destruct fb as [|y fb]; [discriminate|]. injection Hlen as Hlen.
    destruct fc as [|z fc]; [intros _ _ _ _; exists 0; split; [reflexivity | lia]|].
    cbn [compare_fields].
    destruct (SortOrderKey.compare y x) as [c1|] eqn:E1; cbn [rbind]; [|discriminate].
    destruct (SortOrderKey.compare z y) as [c2|] eqn:E2; cbn [rbind]; [|discriminate].
    intros H1 Hd1 H2 Hd2.
    assert (Hc1 : 0 <= c1).
    { destruct (Z.eqb_spec c1 0); [lia|]. injection H1 as <-. exact Hd1. }
    assert (Hc2 : 0 <= c2).
    { destruct (Z.eqb_spec c2 0); [lia|]. injection H2 as <-. exact Hd2. }
    destruct (compare_ge_trans _ _ _ _ _ E1 Hc1 E2 Hc2) as (c3 & E3 & Hc3 & Hz).
    rewrite E3. cbn [rbind].
    destruct (Z.eqb_spec c3 0) as [->|Hne]; [|eauto].
    destruct (Hz eq_refl) as [-> ->]. cbn in H1, H2.
    exact (IH _ _ _ _ Hlen H1 Hd1 H2 Hd2).
Qed.

Lemma key_ge_trans (sort_order : SortOrder) (key : Rec -> result Key)
    (a b c : Rec) :
  sort_key sort_order = Ok key ->
  key_ge key b a = true -> key_ge key c b = true -> key_ge key c a = true.
Proof.
  intros Hk Hba Hcb.
  apply key_ge_iff in Hba as (kb & ka & d1 & Hb & Ha & H1 & Hd1).
  apply key_ge_iff in Hcb as (kc & kb' & d2 & Hc & Hb' & H2 & Hd2).
  rewrite Hb in Hb'. injection Hb' as <-.
  pose proof (derived_same_class _ _ _ _ _ _ Hk Hb Ha) as Sba.
  pose proof (derived_same_class _ _ _ _ _ _ Hk Hc Hb) as Scb.
  pose proof (derived_same_class _ _ _ _ _ _ Hk Hc Ha) as Sca.
  rewrite (cmp_fields _ _ Sba) in H1. rewrite (cmp_fields _ _ Scb) in H2.
  destruct (compare_fields_ge_trans _ _ _ _ _ (fields_length _ _ Sba)
              H1 Hd1 H2 Hd2) as (d3 & H3 & Hd3).
  apply key_ge_iff. exists kc, ka, d3.
  now rewrite (cmp_fields _ _ Sca).
Qed.

Lemma in_order_from_tail (key : Rec -> result Key) (p : Rec) (recs : list Rec) :
  in_order_from key p recs = true -> in_order key recs = true.
Proof.
  destruct recs as [|r rest]; [reflexivity|]. cbn [in_order_from in_order].
  now intros [_ H]%andb_true_iff.
Qed.

Lemma in_order_from_all (sort_order : SortOrder) (key : Rec -> result Key)
    (recs : list Rec) (p : Rec) (j : nat) (rj : Rec) :
  sort_key sort_order = Ok key ->
  in_order_from key p recs = true -> recs !! j = Some rj ->
  key_ge key rj p = true.
Proof.
  intros Hk. revert p j; induction recs as [|r rest IH]; intros p j;
    [discriminate|].
  cbn [in_order_from]. intros [Hge Hrest]%andb_true_iff.
  destruct j as [|j]; cbn; [now intros [= <-]|].
  intros Hj. exact (key_ge_trans _ _ _ _ _ Hk Hge (IH _ _ Hrest Hj)).
Qed.

Lemma in_order_pairwise (sort_order : SortOrder) (key : Rec -> result Key)
    (recs : list Rec) (i j : nat) (ri rj : Rec) :
  sort_key sort_order = Ok key ->
  in_order key recs = true ->
  (i < j)%nat -> recs !! i = Some ri -> recs !! j = Some rj ->
  key_ge key rj ri = true.
Proof.
  intros Hk. revert i j; induction recs as [|r rest IH]; intros i j Ho Hij Hi Hj;
    [discriminate|].
  destruct j as [|j]; [lia|]. cbn in Hj. cbn [in_order] in Ho.
  destruct i as [|i]; cbn in Hi.
  - injection Hi as <-. exact (in_order_from_all _ _ _ _ _ _ Hk Ho Hj).
  - apply (IH i j); [|lia | assumption | assumption].
    exact (in_order_from_tail _ _ _ Ho).
Qed.

Lemma key_ge_not_lt (key : Rec -> result Key) (r p : Rec) :
  key_ge key r p = true -> key_lt key r p = false.
Proof.
  unfold key_ge, key_lt.
  destruct (key r); [|discriminate]. destruct (key p); [|discriminate].
  destruct (__lt__ _ _) as [[|]|]; try discriminate; reflexivity.
Qed.

(** X6: a sequence in order by adjacent pairs is sorted as a whole: for a
    key function of an ordering, no record of the sequence has a key less
    than the key of any record before it. *)
Theorem in_order_sorted (sort_order : SortOrder) (key : Rec -> result Key)
    (recs : list Rec) (i j : nat) (ri rj : Rec) :
  sort_key sort_order = Ok key ->
  in_order key recs = true ->
  (i < j)%nat -> recs !! i = Some ri -> recs !! j = Some rj ->
  key_ge key rj ri = true /\ key_lt key rj ri = false.
Proof.
  intros Hk Ho Hij Hi Hj.
  pose proof (in_order_pairwise _ _ _ _ _ _ _ Hk Ho Hij Hi Hj) as Hge.
  split; [exact Hge|]. now apply key_ge_not_lt.
Qed.

Lemma in_order_sorted_witness :
  key_ge (fun record =>
            rmap KCoordinate (_CoordinateKey.__init__ record (Some Sample.contigs)))
         Sample.chr2_early Sample.chr1_late = true.
Proof.
  exact (proj1 (in_order_sorted Sample.coordinate _
                  [Sample.chr1_late; Sample.chr1_late; Sample.chr2_early]
                  0 2 _ _ eq_refl eq_refl (Nat.lt_0_succ 1) eq_refl eq_refl)).
Defined.

Lemma add_all_accepted_follows (key : Rec -> result Key) (recs : list Rec)
    (c : SortOrderChecker) :
  _sort_f c = Some key ->
  (forall p, _last_rec c = Some p -> rec_bool p = true) ->
  Forall (fun r => rec_bool r = true) recs ->
  fst (Checker.add_all recs c) = Ok tt ->
  follows key c recs = true.
Proof.
  intros Hf Hp Ht. revert c Hf Hp; induction Ht as [|r rest Hr _ IH];
    intros c Hf Hp; cbn [Checker.add_all].
  - intros _. unfold follows. now destruct (_last_rec c).
  - unfold bind.
    destruct (Checker.add r c) as [[[]|e] c1] eqn:E; [|discriminate].
    intros Hrest. pose proof (add_ok_accepts _ _ _ E) as ->.
    assert (Hfol : follows key (accepted r c) rest = true).
    { apply IH; [exact Hf | now intros p [= <-] | exact Hrest]. }
    unfold follows in *. cbn [accepted _last_rec] in Hfol.
    destruct (_last_rec c) as [p|] eqn:El; [|exact Hfol].
    cbn [in_order_from]. apply andb_true_iff. split; [|exact Hfol].
    destruct (add_after_truthy key c p r El Hf (Hp p eq_refl)) as [Hlt Hge].
    destruct (key_lt key r p) eqn:Ek.
    + rewrite (Hlt eq_refl) in E. discriminate.
    + destruct (Hge eq_refl) as [[_ H] | (e & He & _)]; [exact H|].
      rewrite He in E. discriminate.
Qed.

(** X7: over truthy records, a checker bound to an ordering with a key
    function accepts a whole sequence exactly when the sequence is in
    order, and an accepted sequence is sorted: no record has a key less
    than the key of any earlier record. *)
Theorem checker_accepts_sorted (sort_order : SortOrder)
    (key : Rec -> result Key) (ci : SortOrderChecker) (recs : list Rec) :
  sort_key sort_order = Ok key ->
  Checker.__init__ sort_order = Ok ci ->
  Forall (fun r => rec_bool r = true) recs ->
  (fst (Checker.add_all recs ci) = Ok tt <-> in_order key recs = true) /\
  (fst (Checker.add_all recs ci) = Ok tt ->
   forall i j ri rj,
     (i < j)%nat -> recs !! i = Some ri -> recs !! j = Some rj ->
     key_lt key rj ri = false).
Proof.
  intros Hk Hi Ht. unfold Checker.__init__ in Hi. rewrite Hk in Hi.
  injection Hi as <-.
  assert (Hiff : fst (Checker.add_all recs
                        {| _last_rec := None; _sort_f := Some key |}) = Ok tt
                 <-> in_order key recs = true).
  { split.
    - intros H. now apply (add_all_accepted_follows key) in H.
    - intros H. now rewrite (add_all_in_order key). }
  split; [exact Hiff|].
  intros H i j ri rj Hij Hri Hrj. apply Hiff in H.
  exact (key_ge_not_lt _ _ _ (in_order_pairwise _ _ _ _ _ _ _ Hk H Hij Hri Hrj)).
Qed.

Lemma checker_accepts_sorted_witness :
  exists ci,
    Checker.__init__ Sample.coordinate = Ok ci /\
    fst (Checker.add_all [Sample.chr1_late; Sample.chr2_early; Sample.chr1_late] ci)
    <> Ok tt.
Proof.
  eexists. split; [reflexivity|].
  destruct (checker_accepts_sorted Sample.coordinate _ _
              [Sample.chr1_late; Sample.chr2_early; Sample.chr1_late]
              eq_refl eq_refl) as [[Hiff _] _].
  - repeat constructor.
  - intros H. specialize (Hiff H). discriminate.
Defined.

(** ** Failures of the checker *)

Lemma add_all_raise_split (recs : list Rec) (c c1 : SortOrderChecker) (e : exn) :
  Checker.add_all recs c = (Raise e, c1) ->
  exists pre r post,
    recs = pre ++ r :: post /\
    Checker.add_all pre c = (Ok tt, c1) /\
    Checker.add r c1 = (Raise e, c1).
Proof.
  revert c; induction recs as [|rec rest IH]; intros c; cbn [Checker.add_all];
    [discriminate|].
  unfold bind. destruct (Checker.add rec c) as [[[]|e'] c'] eqn:E.
  - intros H. destruct (IH _ H) as (pre & r & post & -> & Hpre & Hr).
    exists (rec :: pre), r, post. split; [reflexivity|].
    cbn [Checker.add_all app]. unfold bind. rewrite E. now split.
  - intros [= <- <-].
    pose proof (add_raise_keeps_state rec c e') as Hs. rewrite E in Hs.
    cbn [fst snd] in Hs. specialize (Hs eq_refl). subst c'.
    now exists [], rec, rest.
Qed.

(** X8: [add] is exception safe and a run of adds fails fast: when feeding
    a list raises, the list splits into an accepted prefix, the record
    whose [add] raised that exception and a remainder never looked at, and
    the checker is left as it was after the accepted prefix. *)
Theorem add_all_fail_fast (recs : list Rec) (c c1 : SortOrderChecker) (e : exn) :
  Checker.add_all recs c = (Raise e, c1) ->
  exists pre r post,
    recs = pre ++ r :: post /\
    Checker.add_all pre c = (Ok tt, c1) /\
    Checker.add r c1 = (Raise e, c1) /\
    forall post', Checker.add_all (pre ++ r :: post') c = (Raise e, c1).
Proof.
  intros H. destruct (add_all_raise_split _ _ _ _ H)
    as (pre & r & post & Hrecs & Hpre & Hr).
  exists pre, r, post. split; [exact Hrecs|]. split; [exact Hpre|].
  split; [exact Hr|]. intros post'.
  rewrite (add_all_app _ _ _ _ Hpre). cbn [Checker.add_all]. unfold bind.
  now rewrite Hr.
Qed.

Lemma add_all_fail_fast_witness :
  let c := {| _last_rec := None;
              _sort_f := Some (fun record =>
                rmap KCoordinate
                     (_CoordinateKey.__init__ record (Some Sample.contigs))) |} in
  exists pre r post c1,
    [Sample.chr2_early; Sample.chr1_late; Sample.chrX] = pre ++ r :: post /\
    Checker.add_all pre c = (Ok tt, c1) /\
    _last_rec c1 = Some Sample.chr2_early.
Proof.
  intros c.
  destruct (add_all_fail_fast [Sample.chr2_early; Sample.chr1_late; Sample.chrX]
              c _ _ eq_refl) as (pre & r & post & Hrecs & Hpre & _).
  exists pre, r, post. eexists. split; [exact Hrecs|]. split; [exact Hpre|].
  reflexivity.
Defined.

Lemma first_add_accepted (c : SortOrderChecker) (rec : Rec) :
  _last_rec c = None -> Checker.add rec c = (Ok tt, accepted rec c).
Proof. intros H. now rewrite add_cases, H. Qed.

(** X9: the first record is stored without its key being derived, so a
    truthy record that has no key (not Locatable, or on an unknown contig)
    is accepted as the first record; from then on every [add] raises,
    either the error of the new record's key or the error of the stored
    record's key, and the checker never leaves that state. *)
Theorem unkeyed_record_blocks (sort_order : SortOrder)
    (key : Rec -> result Key) (ci : SortOrderChecker) (p : Rec) (e : exn) :
  sort_key sort_order = Ok key ->
  Checker.__init__ sort_order = Ok ci ->
  key p = Raise e -> rec_bool p = true ->
  exists c,
    Checker.add p ci = (Ok tt, c) /\
    (forall r, exists e',
        Checker.add r c = (Raise e', c) /\
        (key r = Raise e' \/ (exists k, key r = Ok k) /\ e' = e)) /\
    (forall recs, recs <> [] -> exists e', Checker.add_all recs c = (Raise e', c)).
Proof.
  intros Hk Hi Hp Hb. unfold Checker.__init__ in Hi. rewrite Hk in Hi.
  injection Hi as <-.
  set (c := {| _last_rec := Some p; _sort_f := Some key |}).
  assert (Hadd : forall r, exists e',
             Checker.add r c = (Raise e', c) /\
             (key r = Raise e' \/ (exists k, key r = Ok k) /\ e' = e)).
  { intros r. rewrite add_cases. cbn [c _last_rec _sort_f]. rewrite Hb.
    destruct (key r) as [k|e'] eqn:Er.
    - rewrite Hp. exists e. split; [reflexivity|]. right. eauto.
    - exists e'. split; [reflexivity|]. now left. }
  exists c. split; [reflexivity|]. split; [exact Hadd|].
  intros [|r rest] Hne; [congruence|].
  destruct (Hadd r) as (e' & He' & _). exists e'.
  cbn [Checker.add_all]. unfold bind. now rewrite He'.
Qed.

Lemma unkeyed_record_blocks_witness :
  exists ci c e,
    Checker.__init__ Sample.coordinate = Ok ci /\
    Checker.add Sample.chrX ci = (Ok tt, c) /\
    Checker.add Sample.chr1_late c = (Raise e, c) /\
    UnknownContig e.
Proof.
  destruct (unkeyed_record_blocks Sample.coordinate _ _ Sample.chrX _
              eq_refl eq_refl eq_refl eq_refl) as (c & Hc & Hadd & _).
  destruct (Hadd Sample.chr1_late) as (e' & He' & [Hbad | [_ ->]]);
    [discriminate|].
  eexists _, c, _. split; [reflexivity|]. split; [exact Hc|].
  split; [exact He'|]. eexists. split; [reflexivity|]. eexists. reflexivity.
Defined.

(** ** What the iterator yields *)

Lemma key_raises_not_stop (sort_order : SortOrder) (key : Rec -> result Key)
    (record : Rec) (e : exn) :
  sort_key sort_order = Ok key -> key record = Raise e -> e <> StopIteration.
Proof.
  destruct sort_order as [cls contigs]. intros Hk.
  assert (Hcls : cls = Coordinate \/ cls = BarcodesAndCoordinate)
    by (destruct cls; try discriminate; auto).
  destruct (sort_key_coordinate cls contigs Hcls) as (key' & Hk' & Hkey).
  rewrite Hk in Hk'. injection Hk' as <-. rewrite Hkey.
  destruct (no_accessor cls record); [now intros [= <-]|].
  unfold _CoordinateKey.__init__.
  destruct (rec_locatable record) as [loc|]; cbn [rbind]; [|now intros [= <-]].
  destruct contigs as [[|y t]|]; cbn [rbind]; try discriminate.
  destruct (index (chromosome loc) (y :: t)); cbn [rbind]; [discriminate|].
  now intros [= <-].
Qed.

Lemma add_never_stops (sort_order : SortOrder) (c c' : SortOrderChecker)
    (r : Rec) (e : exn) :
  match sort_key sort_order with
  | Ok key => _sort_f c = Some key
  | Raise _ => _sort_f c = None
  end ->
  Checker.add r c = (Raise e, c') -> e <> StopIteration.
Proof.
  intros Hf. rewrite add_cases.
  destruct (sort_key sort_order) as [key|] eqn:Hk; rewrite Hf;
    [|now destruct (_last_rec c)].
  destruct (_last_rec c) as [p|]; [|discriminate].
  destruct (rec_bool p); [|discriminate].
  destruct (key r) as [kr|e1] eqn:Er.
  - destruct (key p) as [kp|e2] eqn:Ep.
    + destruct (__lt__ kr kp) as [[|]|e3] eqn:El.
      * now intros [= <- _].
      * discriminate.
      * intros [= <- _]. unfold __lt__ in El.
        apply rbind_raise in El as [El | (d & _ & El)]; [|discriminate].
        apply cmp_raises in El as [-> | ->]; discriminate.
    + intros [= <- _]. exact (key_raises_not_stop _ _ _ _ Hk Ep).
  - intros [= <- _]. exact (key_raises_not_stop _ _ _ _ Hk Er).
Qed.

(** X10: whatever the sequence and the ordering, pulling the iterator to
    its end yields an initial segment of the sequence, unchanged: either the
    checker accepts every record and the whole sequence is yielded before
    [StopIteration], or the records before the first one the checker
    rejects are yielded and the pull for that record raises the checker's
    exception. *)
Theorem iterator_yields_prefix (sort_order : SortOrder) (recs : list Rec) :
  exists it,
    Enforcing.__init__ recs sort_order = Ok it /\
    forall fuel,
      (length recs < fuel)%nat ->
      (fst (Checker.add_all recs (_checker it)) = Ok tt /\
       Enforcing.consume fuel it = Some (recs, Enforcing.Exhausted)) \/
      (exists pre r post e,
          recs = pre ++ r :: post /\
          fst (Checker.add_all pre (_checker it)) = Ok tt /\
          fst (Checker.add_all (pre ++ [r]) (_checker it)) = Raise e /\
          Enforcing.consume fuel it = Some (pre, Enforcing.Failed e)).
Proof.
  destruct (enforcing_init sort_order recs) as (ci & Hi & Hl & Hf).
  eexists. split; [exact Hi|]. cbn [_checker]. intros fuel Hfuel.
  destruct (Checker.add_all recs ci) as [[[]|e] c1] eqn:E.
  - left. split; [reflexivity|]. exact (consume_accepted _ _ _ _ E Hfuel).
  - right. destruct (add_all_raise_split _ _ _ _ E)
      as (pre & r & post & -> & Hpre & Hr).
    exists pre, r, post, e. split; [reflexivity|].
    split; [now rewrite Hpre|]. split.
    { rewrite (add_all_app _ _ _ _ Hpre). cbn [Checker.add_all]. unfold bind.
      now rewrite Hr. }
    rewrite length_app in Hfuel. cbn [length] in Hfuel.
    replace fuel with (length pre + S (fuel - length pre - 1))%nat by lia.
    rewrite (consume_prefix _ _ _ _ _ Hpre).
    cbn [Enforcing.consume]. rewrite next_cases. cbn [_iter _checker]. rewrite Hr.
    assert (Hne : e <> StopIteration).
    { apply (add_never_stops sort_order c1 c1 r); [|exact Hr].
      rewrite (add_all_sort_f _ _ _ Hpre). exact Hf. }
    destruct e; try congruence; now rewrite app_nil_r.
Qed.

Lemma iterator_yields_prefix_witness :
  exists it,
    Enforcing.__init__ [Sample.chr1_late; Sample.chrX; Sample.chr2_early]
      Sample.coordinate = Ok it /\
    exists e, Enforcing.consume 4 it
              = Some ([Sample.chr1_late], Enforcing.Failed e).
Proof.
  destruct (iterator_yields_prefix Sample.coordinate
              [Sample.chr1_late; Sample.chrX; Sample.chr2_early])
    as (it & Hi & H).
  exists it. split; [exact Hi|].
  injection Hi as <-.
  destruct (H 4%nat ltac:(cbn; lia)) as [[Hok _] | (pre & r & post & e & _ & _ & _ & Hc)].
  - discriminate Hok.
  - eexists. reflexivity.
Defined.

(** X11: a pull that raises never changes the checker.  At the end of the
    wrapped sequence it raises [StopIteration] and leaves the iterator as it
    is, so every later pull does the same; otherwise the rejected record is
    consumed from the wrapped sequence, and the next pull compares the
    record after it with the same stored record. *)
Theorem next_failure (self : SortOrderEnforcingIterator) (e : exn) :
  fst (Enforcing.__next__ self) = Raise e ->
  _checker (snd (Enforcing.__next__ self)) = _checker self /\
  match _iter self with
  | [] => e = StopIteration /\ snd (Enforcing.__next__ self) = self
  | rec :: rest =>
      fst (Checker.add rec (_checker self)) = Raise e /\
      _iter (snd (Enforcing.__next__ self)) = rest
  end.
Proof.
  rewrite next_cases. destruct self as [c [|rec rest]]; cbn [_iter _checker].
  - intros [= <-]. auto.
  - pose proof (add_raise_keeps_state rec c) as Hs.
    destruct (Checker.add rec c) as [[[]|e'] c'] eqn:E; [discriminate|].
    cbn [fst snd] in *. intros [= ->]. now rewrite (Hs e eq_refl).
Qed.

Lemma next_failure_witness :
  let self := {| _checker :=
                   {| _last_rec := Some Sample.chr2_early;
                      _sort_f := Some (fun record =>
                        rmap KCoordinate
                             (_CoordinateKey.__init__ record (Some Sample.contigs))) |};
                 _iter := [Sample.chr1_late; Sample.chr2_early] |} in
  _checker (snd (Enforcing.__next__ self)) = _checker self /\
  _iter (snd (Enforcing.__next__ self)) = [Sample.chr2_early].
Proof.
  intros self.
  destruct (next_failure self _ eq_refl) as (Hc & _ & Hi).
  split; [exact Hc | exact Hi].
Defined.

(** ** Contigs read from a FASTA index *)

Lemma append_not_empty (a s : string) : s <> "" -> a +:+ s <> "".
Proof.
  destruct a; [now rewrite append_nil_l | rewrite append_cons; discriminate].
Qed.

Lemma rstrip_crlf_app (a b : string) :
  rstrip_crlf b <> "" -> rstrip_crlf (a +:+ b) = a +:+ rstrip_crlf b.
Proof.
  intros Hb. induction a as [|x a IH]; [now rewrite !append_nil_l|].
  rewrite !append_cons. cbn [rstrip_crlf]. rewrite IH.
  pose proof (append_not_empty a _ Hb) as Hne.
  now destruct (a +:+ rstrip_crlf b).
Qed.

Lemma rstrip_crlf_tab (x : string) :
  rstrip_crlf (String "009" x) = String "009" (rstrip_crlf x).
Proof. cbn [rstrip_crlf]. now destruct (rstrip_crlf x). Qed.

Lemma first_field_stop (name x : string) :
  ~ contains name TAB -> first_field (name +:+ String "009" x) = name.
Proof.
  induction name as [|c t IH]; intros Hn; [reflexivity|].
  rewrite append_cons. cbn [first_field].
  destruct (Ascii.eqb_spec c "009") as [->|Hc].
  - exfalso. apply Hn. now exists "", t.
  - f_equal. apply IH. intros (pre & post & ->). apply Hn.
    now exists (String c pre), post.
Qed.

Lemma fasta_line (name rest : string) :
  ~ contains name TAB ->
  first_field (rstrip_crlf (name +:+ TAB +:+ rest)) = name.
Proof.
  intros Hn. unfold TAB. rewrite append_cons, append_nil_l.
  rewrite rstrip_crlf_app by (rewrite rstrip_crlf_tab; discriminate).
  rewrite rstrip_crlf_tab. now apply first_field_stop.
Qed.

(** X12: with a FASTA index path the contig list is read from the file and
    the [contigs] argument is ignored: for lines made of a name without TAB,
    a TAB and any further text (other columns, line ending), the ordering
    holds exactly the names, in file order. *)
Theorem fasta_index_contigs (fs : string -> option (list string))
    (c : ascii) (path : string) (entries : list (string * string))
    (given : option (list string)) :
  fs (String c path)
  = Some (List.map (fun e => fst e +:+ TAB +:+ snd e) entries) ->
  Forall (fun e => ~ contains (fst e) TAB) entries ->
  Coordinate_contigs fs (Some (String c path)) given
  = Ok (Some (List.map fst entries)).
Proof.
  intros Hfs Hn. unfold Coordinate_contigs. rewrite Hfs. do 2 f_equal.
  clear Hfs. induction Hn as [|[name rest] entries Hname _ IH]; [reflexivity|].
  cbn [List.map fst snd] in *. now rewrite (fasta_line _ _ Hname), IH.
Qed.

Lemma fasta_index_contigs_witness :
  Coordinate_contigs
    (fun _ => Some ["chr1" +:+ TAB +:+ "248956422" +:+ TAB +:+ "112" +:+ LF;
                    "chr2" +:+ TAB +:+ "242193529" +:+ CR +:+ LF])
    (Some "genome.fa.fai") (Some ["chrM"])
  = Ok (Some ["chr1"; "chr2"]).
Proof.
  apply (fasta_index_contigs _ "g" "enome.fa.fai"
           [("chr1", "248956422" +:+ TAB +:+ "112" +:+ LF);
            ("chr2", "242193529" +:+ CR +:+ LF)]).
  - reflexivity.
  - repeat constructor; cbn [fst]; intros (pre & post & H);
      destruct pre as [|a0 [|a1 [|a2 [|a3 [|a4 pre]]]]];
      rewrite ?append_cons, ?append_nil_l in H; unfold TAB in H;
      rewrite ?append_cons, ?append_nil_l in H; discriminate.
Defined.

(** X13: an empty FASTA index leaves the ordering with an empty contig
    list, which key derivation treats as no list at all: whatever [contigs]
    argument was passed, every Locatable record gets a key carrying its own
    chromosome value, and no unknown-contig error is raised. *)
Theorem empty_fasta_index (fs : string -> option (list string))
    (cls : SortOrderClass) (c : ascii) (path : string)
    (given : option (list string)) :
  cls = Coordinate \/ cls = BarcodesAndCoordinate ->
  fs (String c path) = Some [] ->
  exists sort_order key,
    new fs cls (Some (String c path)) given = Ok sort_order /\
    _contigs sort_order = Some [] /\
    sort_key sort_order = Ok key /\
    (forall record loc,
        rec_locatable record = Some loc ->
        exists k, key record = Ok k /\
                  key_chromosome (locatable_of k) = chromosome loc) /\
    (forall record e, key record = Raise e -> ~ UnknownContig e).
Proof.
  intros Hcls Hfs.
  destruct (sort_key_coordinate cls (Some []) Hcls) as (key & Hk & Hkey).
  exists {| class_of := cls; _contigs := Some [] |}, key.
  split.
  { unfold new, Coordinate_contigs. rewrite Hfs. now destruct Hcls as [-> | ->]. }
  split; [reflexivity|]. split; [exact Hk|]. split.
  - intros record loc Hloc. rewrite Hkey, (no_accessor_locatable _ _ _ Hloc).
    rewrite (coordinate_key_natural _ _ (Some []) Hloc) by now right.
    cbn [rbind]. eexists. split; [reflexivity|]. now destruct Hcls as [-> | ->].
  - intros record e. rewrite Hkey.
    destruct (no_accessor cls record);
      [intros [= <-] (msg & Hm & _); discriminate|].
    unfold _CoordinateKey.__init__.
    destruct (rec_locatable record) as [loc|]; cbn [rbind]; [discriminate|].
    intros [= <-]. apply not_locatable_not_unknown_contig.
Qed.

Lemma empty_fasta_index_witness :
  exists sort_order key k,
    new (fun _ => Some []) Coordinate (Some "empty.fai") (Some Sample.contigs)
    = Ok sort_order /\
    sort_key sort_order = Ok key /\
    key Sample.chrX = Ok k /\
    key_chromosome (locatable_of k) = PStr "chrX".
Proof.
  destruct (empty_fasta_index (fun _ => Some []) Coordinate "e" "mpty.fai"
              (Some Sample.contigs) (or_introl eq_refl) eq_refl)
    as (so & key & Hn & _ & Hk & Hkey & _).
  destruct (Hkey Sample.chrX _ eq_refl) as (k & Hr & Hc).
  now exists so, key, k.
Defined.

(** ** Records without the Locatable capability *)

(** X14: for an object whose class does not derive from [Locatable], the
    [Coordinate] key function raises the [ValueError] that names the class,
    whatever the contig list: the class check comes before the contig
    lookup, and the error is neither the unknown-contig nor the
    order-violation error.  The [BarcodesAndCoordinate] key function reads
    the barcodes first: it raises that same [ValueError] when the object has
    the accessor [value], and [AttributeError] when it has not. *)
Theorem not_locatable_error (cls : SortOrderClass)
    (contigs : option (list string)) (record : Rec) :
  cls = Coordinate \/ cls = BarcodesAndCoordinate ->
  rec_locatable record = None ->
  exists key,
    sort_key {| class_of := cls; _contigs := contigs |} = Ok key /\
    (cls = Coordinate \/ rec_value record = true ->
     exists msg,
       key record = Raise (ValueError msg) /\
       msg = "Record of type '" +:+ rec_class record
             +:+ "' is not a subclass of 'Locatable'" /\
       contains msg (rec_class record) /\
       ~ UnknownContig (ValueError msg) /\ ~ OrderViolation (ValueError msg)) /\
    (cls = BarcodesAndCoordinate -> rec_value record = false ->
     key record = Raise AttributeError).
Proof.
  intros Hcls Hloc.
  destruct (sort_key_coordinate cls contigs Hcls) as (key & Hk & Hkey).
  exists key. split; [exact Hk|]. rewrite Hkey.
  unfold no_accessor, has_value. rewrite Hloc. split.
  - intros Hv. eexists.
    assert (Hg : match cls with
                 | BarcodesAndCoordinate => negb (rec_value record)
                 | _ => false
                 end = false).
    { destruct Hv as [-> | ->]; [reflexivity | now destruct cls]. }
    rewrite Hg. unfold _CoordinateKey.__init__. rewrite Hloc. cbn [rbind].
    split; [reflexivity|]. split; [reflexivity|]. split; [|split].
    + apply contains_app_r, contains_app_l, contains_refl.
    + apply not_locatable_not_unknown_contig.
    + intros (msg & [= <-] & post & H). rewrite !append_cons in H. discriminate.
  - now intros -> ->.
Qed.

Lemma not_locatable_error_witness :
  let dict := {| rec_class := "dict"; rec_locatable := None; rec_value := false;
                 rec_columns := ∅; rec_str := "{}"; rec_bool := false |} in
  exists keyC keyB,
    sort_key Sample.coordinate = Ok keyC /\
    sort_key Sample.barcodes = Ok keyB /\
    keyC dict
    = Raise (ValueError "Record of type 'dict' is not a subclass of 'Locatable'") /\
    keyB dict = Raise AttributeError.
Proof.
  intros dict.
  destruct (not_locatable_error Coordinate (Some Sample.contigs) dict
              (or_introl eq_refl) eq_refl) as (keyC & HkC & HC & _).
  destruct (not_locatable_error BarcodesAndCoordinate (Some Sample.contigs) dict
              (or_intror eq_refl) eq_refl) as (keyB & HkB & _ & HB).
  destruct (HC (or_introl eq_refl)) as (msg & Hr & -> & _).
  exists keyC, keyB. split; [exact HkC|]. split; [exact HkB|].
  split; [exact Hr | exact (HB eq_refl eq_refl)].
Defined.

(** ** The string form of a barcode key *)

(** X15: the string form of a derived barcode key exists only when both
    barcode columns have a value: with a null barcode [__str__] raises
    [TypeError], although such keys compare without error; with both
    present it is the tumor barcode, the normal barcode and the coordinate
    form, joined by TAB. *)
Theorem barcodes_key_str (contigs : option (list string))
    (key : Rec -> result Key) (r : Rec) (b : BarcodesAndCoordinateKey) :
  sort_key {| class_of := BarcodesAndCoordinate; _contigs := contigs |} = Ok key ->
  key r = Ok (KBarcodes b) ->
  (_BarcodesAndCoordinateKey.__str__ b = Raise TypeError <->
   value r "Tumor_Sample_Barcode" = None \/
   value r "Matched_Norm_Sample_Barcode" = None) /\
  (forall tumor normal,
      value r "Tumor_Sample_Barcode" = Some tumor ->
      value r "Matched_Norm_Sample_Barcode" = Some normal ->
      _BarcodesAndCoordinateKey.__str__ b
      = Ok (tumor +:+ TAB +:+ normal +:+ TAB
            +:+ _CoordinateKey.__str__ (coordinate b))) /\
  __cmp__ (KBarcodes b) (KBarcodes b) = Ok 0.
Proof.
  intros Hk Hr.
  destruct (barcodes_key_inv _ _ _ _ Hk Hr) as (c & _ & [= ->]).
  unfold _BarcodesAndCoordinateKey.__str__.
  cbn [tumor_barcode normal_barcode coordinate].
  split; [|split; [|apply cmp_refl]].
  - destruct (value r "Tumor_Sample_Barcode"), (value r "Matched_Norm_Sample_Barcode");
      cbn [of_str]; split; auto; try discriminate; intros [H|H]; discriminate.
  - now intros tumor normal -> ->.
Qed.

Lemma barcodes_key_str_witness :
  exists key b,
    sort_key Sample.barcodes = Ok key /\
    key Sample.chr2_early = Ok (KBarcodes b) /\
    _BarcodesAndCoordinateKey.__str__ b
    = Ok ("T1" +:+ TAB +:+ "N1" +:+ TAB +:+ "1" +:+ TAB +:+ "5" +:+ TAB +:+ "6").
Proof.
  eexists _, _. split; [reflexivity|]. split; [reflexivity|].
  exact (proj1 (proj2 (barcodes_key_str (Some Sample.contigs) _ Sample.chr2_early _
                         eq_refl eq_refl)) "T1" "N1" eq_refl eq_refl).
Defined.

(** ** Barcode ordering within one sample pair *)

Lemma barcodes_key_of (contigs : option (list string)) (r : Rec) :
  match _CoordinateKey.__init__ r contigs with
  | Ok c =>
      rmap KBarcodes (_BarcodesAndCoordinateKey.__init__ r contigs)
      = Ok (KBarcodes
              {| tumor_barcode := of_str (value r "Tumor_Sample_Barcode");
                 normal_barcode := of_str (value r "Matched_Norm_Sample_Barcode");
                 coordinate := c |})
  | Raise _ =>
      exists e, rmap KBarcodes (_BarcodesAndCoordinateKey.__init__ r contigs)
                = Raise e
  end.
Proof.
  unfold rmap, _BarcodesAndCoordinateKey.__init__, has_value.
  unfold _CoordinateKey.__init__ at 1.
  destruct (rec_locatable r) as [loc|] eqn:E.
  - unfold _CoordinateKey.__init__. rewrite E.
    destruct (let? chrom := _ in _) as [c|e]; cbn [rbind]; eauto.
  - destruct (rec_value r); cbn [rbind]; [|eauto].
    unfold _CoordinateKey.__init__. rewrite E. cbn [rbind]. eauto.
Qed.

Lemma key_ge_same_barcodes (contigs : option (list string))
    (keyB keyC : Rec -> result Key) (r p : Rec) :
  sort_key {| class_of := BarcodesAndCoordinate; _contigs := contigs |} = Ok keyB ->
  sort_key {| class_of := Coordinate; _contigs := contigs |} = Ok keyC ->
  value r "Tumor_Sample_Barcode" = value p "Tumor_Sample_Barcode" ->
  value r "Matched_Norm_Sample_Barcode" = value p "Matched_Norm_Sample_Barcode" ->
  key_ge keyB r p = key_ge keyC r p.
Proof.
  intros [= <-] [= <-] Ht Hn. unfold key_ge. cbn [_contigs].
  pose proof (barcodes_key_of contigs r) as Hr.
  pose proof (barcodes_key_of contigs p) as Hp.
  unfold rmap at 3 4.
  destruct (_CoordinateKey.__init__ r contigs) as [cr|];
    [|destruct Hr as (e' & ->); reflexivity].
  destruct (_CoordinateKey.__init__ p contigs) as [cp|];
    [|destruct Hp as (e' & ->); rewrite Hr; reflexivity].
  rewrite Hr, Hp, Ht, Hn. cbn [rbind].
  unfold __lt__, __cmp__, _BarcodesAndCoordinateKey.__cmp__.
  cbn [tumor_barcode normal_barcode coordinate locatable_of].
  rewrite !compare_refl. unfold rbind at 2 3 4. cbn.
  now destruct (_CoordinateKey.__cmp__ cr cp).
Qed.

(** X16: on records that all carry the same tumor and matched-normal
    barcodes, [BarcodesAndCoordinate] and [Coordinate] built with the same
    contigs agree: a sequence is in order for one exactly when it is for the
    other. *)
Theorem same_barcodes_coordinate_order (contigs : option (list string))
    (keyB keyC : Rec -> result Key) (tumor normal : option string)
    (recs : list Rec) :
  sort_key {| class_of := BarcodesAndCoordinate; _contigs := contigs |} = Ok keyB ->
  sort_key {| class_of := Coordinate; _contigs := contigs |} = Ok keyC ->
  Forall (fun r => value r "Tumor_Sample_Barcode" = tumor /\
                   value r "Matched_Norm_Sample_Barcode" = normal) recs ->
  in_order keyB recs = in_order keyC recs.
Proof.
  intros HB HC Hall. destruct Hall as [|r rest [Ht Hn] Hrest]; [reflexivity|].
  cbn [in_order]. revert r Ht Hn.
  induction Hrest as [|r' rest [Ht' Hn'] _ IH]; intros r Ht Hn; [reflexivity|].
  cbn [in_order_from].
  rewrite (key_ge_same_barcodes contigs keyB keyC r' r HB HC) by congruence.
  now rewrite (IH r' Ht' Hn').
Qed.

Lemma same_barcodes_coordinate_order_witness :
  exists keyB keyC,
    sort_key Sample.barcodes = Ok keyB /\ sort_key Sample.coordinate = Ok keyC /\
    in_order keyB [Sample.chr2_early; Sample.chr2_early; Sample.chr3_mid] = true /\
    in_order keyC [Sample.chr2_early; Sample.chr2_early; Sample.chr3_mid] = true.
Proof.
  eexists _, _. split; [reflexivity|]. split; [reflexivity|].
  split; [reflexivity|].
  refine (eq_trans
            (eq_sym (same_barcodes_coordinate_order (Some Sample.contigs) _ _
                       (Some "T1") (Some "N1")
                       [Sample.chr2_early; Sample.chr2_early; Sample.chr3_mid]
                       eq_refl eq_refl _))
            eq_refl).
  repeat constructor.
Defined.
